(** * mcp-pdf-tools: the three PDF tool handlers of [src/index.ts]

    The server registers three tools, [remove-pdf-pages],
    [add-text-watermark] and [merge-pdfs].  Each handler reads a file,
    runs one transformation of the [pdf-lib] document and writes a file.
    The handlers are embedded as state-passing functions over a file
    store; JavaScript numbers are exact rationals ([Qc]); the byte
    syntax of PDF, the rendering of numbers, the text of exception
    messages, the file a path denotes and the fate of a write belong to
    the platform and are taken as an interface. *)

From Stdlib Require Import QArith Qcanon Lqa.
From Stdlib Require Import Strings.Ascii Strings.String Strings.Byte.
From stdpp Require Import gmap strings list sorting numbers pretty.

Open Scope string_scope.

(** Arithmetic goals with division by a constant. *)
Ltac divlia := zify; Z.to_euclidean_division_equations; lia.

(** ** Base64 (RFC 4648), as [Buffer.toString('base64')] writes it and as
    the ['base64'] option of [fs.writeFileSync] and [PDFDocument.load]
    read it *)
Module Base64.

Definition alphabet : string :=
  "ABCDEFGHIJKLMNOPQRSTUVWXYZabcdefghijklmnopqrstuvwxyz0123456789+/".

(** The character of a 6-bit value. *)
Definition b64char (n : N) : ascii :=
  nth (N.to_nat n) (list_ascii_of_string alphabet) "="%char.

(** The 6-bit value of a character; the decoders also accept the
    URL-safe pair [-] and [_], and skip every other character. *)
Definition b64val (c : ascii) : option N :=
  let n := N_of_ascii c in
  if (65 <=? n)%N && (n <=? 90)%N then Some (n - 65)%N
  else if (97 <=? n)%N && (n <=? 122)%N then Some (n - 71)%N
  else if (48 <=? n)%N && (n <=? 57)%N then Some (n + 4)%N
  else if (n =? 43)%N || (n =? 45)%N then Some 62%N
  else if (n =? 47)%N || (n =? 95)%N then Some 63%N
  else None.

Definition byteOf (n : N) : byte :=
  match Byte.of_N (n mod 256) with Some b => b | None => x00 end.

(** Three bytes become four characters; a last group of one or two
    bytes is padded with [=]. *)
Fixpoint encode (bs : list byte) : string :=
  match bs with
  | [] => EmptyString
  | [a] =>
      let n := (Byte.to_N a * 65536)%N in
      String (b64char (n / 262144)) (String (b64char (n / 4096 mod 64))
        (String "=" (String "=" EmptyString)))
  | [a; b] =>
      let n := (Byte.to_N a * 65536 + Byte.to_N b * 256)%N in
      String (b64char (n / 262144)) (String (b64char (n / 4096 mod 64))
        (String (b64char (n / 64 mod 64)) (String "=" EmptyString)))
  | a :: b :: c :: rest =>
      let n := (Byte.to_N a * 65536 + Byte.to_N b * 256 + Byte.to_N c)%N in
      String (b64char (n / 262144)) (String (b64char (n / 4096 mod 64))
        (String (b64char (n / 64 mod 64)) (String (b64char (n mod 64))
          (encode rest))))
  end.

(** The 6-bit values of the alphabet characters of a text, in order. *)
Fixpoint sextets (s : string) : list N :=
  match s with
  | EmptyString => []
  | String c s' =>
      match b64val c with
      | Some v => v :: sextets s'
      | None => sextets s'
      end
  end.

(** Four 6-bit values become three bytes; three become two, two become
    one, and a single left-over value is dropped. *)
Fixpoint pack (vs : list N) : list byte :=
  match vs with
  | v0 :: v1 :: v2 :: v3 :: rest =>
      let n := (v0 * 262144 + v1 * 4096 + v2 * 64 + v3)%N in
      byteOf (n / 65536) :: byteOf (n / 256) :: byteOf n :: pack rest
  | [v0; v1; v2] =>
      let n := (v0 * 262144 + v1 * 4096 + v2 * 64)%N in
      [byteOf (n / 65536); byteOf (n / 256)]
  | [v0; v1] =>
      let n := (v0 * 262144 + v1 * 4096)%N in
      [byteOf (n / 65536)]
  | _ => []
  end.

Definition decode (s : string) : list byte := pack (sextets s).

End Base64.

(** ** JavaScript values *)

(** A JavaScript number.  The tool schema is [z.array(z.number())]: the
    page numbers are numbers, not only integers.  The model is the field
    of rationals: comparison of two numbers is exact, so is [num - 1] on
    a page number that passed validation, and the arithmetic on page
    sizes is taken as exact. *)
Abbreviation number := Qc (only parsing).

Definition num (z : Z) : number := Qc_of_Z z.
Definition ofNat (n : nat) : number := Qc_of_Z (Z.of_nat n).

(** What a handler can catch. *)
Inductive exn : Type :=
  | ENOENT (path : string)
  | RemovePageFromEmptyDocumentError
  | IndexOutOfRange (index min max : number)
  | InvalidTargetIndexError (targetIndex : number) (Count : nat)
  | TypeError
  | ENOSPC
  | LibraryError (msg : string).

Inductive result (A : Type) : Type :=
  | Ok (a : A)
  | Throw (e : exn).
Arguments Ok {A} a.
Arguments Throw {A} e.

Global Instance result_ret : MRet result := fun A a => Ok a.
Global Instance result_bind : MBind result := fun A B f m =>
  match m with
  | Ok a => f a
  | Throw e => Throw e
  end.

(** A step of a [try] block that runs on the store [s] and leaves it as
    it is: its value goes on, its exception ends the block. *)
Definition andThen {S A B : Type} (s : S) (r : result A)
  (k : A -> S * result B) : S * result B :=
  match r with
  | Ok a => k a
  | Throw e => (s, Throw e)
  end.
Arguments andThen {S A B} s !r k /.

Notation "x ←{ s } y ; z" := (andThen s y (fun x => z))
  (at level 20, s at level 200, y at level 100, z at level 200, only parsing).

(** [for (const x of xs) { acc = step(acc, x) }] where a step may throw. *)
Fixpoint forOf {A S : Type} (step : S -> A -> result S) (s : S) (xs : list A)
  : result S :=
  match xs with
  | [] => Ok s
  | x :: xs' => s' ← step s x; forOf step s' xs'
  end.

(** ** The pdf-lib document *)

Inductive StandardFonts : Type := Helvetica.

(** The options object of [page.drawText]; [rotate] is in degrees. *)
Module Options.
Record DrawTextOptions : Type := {
  x : number;
  y : number;
  size : number;
  font : StandardFonts;
  color : number * number * number;
  opacity : number;
  rotate : number
}.
End Options.
Abbreviation DrawTextOptions := Options.DrawTextOptions (only parsing).

(** What becomes of [fs.writeFileSync]: all the bytes are stored; or the
    file cannot be opened (a missing directory, no permission) and is
    left as it was; or it is opened, which empties it, and the write
    fails after [written] bytes (a full disk). *)
Inductive WriteOutcome : Type :=
  | Stored
  | NotOpened (e : exn)
  | Interrupted (e : exn) (written : nat).

(** The platform under the handlers: the PDF syntax ([parse] is what
    [PDFDocument.load] runs on the decoded bytes, [serialize] is the
    writer that [PDFDocument.save] runs on a document with at least one
    page, [blankPage] the page that [save] adds to a document without
    pages), the page operations the watermark uses, the rendering of a
    number inside a template literal, the [message] of a caught
    exception, and the file system: [resolve] gives the file a path
    denotes (two spellings of one file resolve alike) and [diskWrite]
    the outcome of writing given bytes to a path. *)
Class Platform : Type := {
  Page : Type;
  parse : list byte -> result (list Page);
  serialize : list Page -> result (list byte);
  blankPage : Page;
  getSize : Page -> number * number;
  drawText : Page -> string -> DrawTextOptions -> result Page;
  Number_toString : number -> string;
  message : exn -> string;
  resolve : string -> string;
  diskWrite : string -> list byte -> WriteOutcome
}.

(** A document is its sequence of pages. *)
Abbreviation PDFDocument := (list Page) (only parsing).

(** The files on disk: resolved path to raw content. *)
Abbreviation FS := (gmap string (list byte)) (only parsing).

Section Handlers.
Context `{P : Platform}.

(** [fs.readFileSync(path, { encoding: 'base64' })]: the content of the
    file, returned as base64 text. *)
Definition readFileSync (fs : FS) (path : string) : result string :=
  match fs !! resolve path with
  | Some bytes => Ok (Base64.encode bytes)
  | None => Throw (ENOENT path)
  end.

(** [fs.writeFileSync(path, data, { encoding: 'base64' })]: [data] is
    read as base64 text and the bytes it denotes are written to the
    file; the call gives the store it leaves and returns or throws. *)
Definition writeFileSync (fs : FS) (path : string) (data : string)
  : FS * result unit :=
  let bytes := Base64.decode data in
  match diskWrite path bytes with
  | Stored => (<[resolve path := bytes]> fs, Ok tt)
  | NotOpened e => (fs, Throw e)
  | Interrupted e written => (<[resolve path := take written bytes]> fs, Throw e)
  end.

(** [PDFDocument.load(pdf)] on a string: the string is base64. *)
Definition load (pdf : string) : result PDFDocument :=
  parse (Base64.decode pdf).

Definition getPageCount (doc : PDFDocument) : nat := length doc.

Definition isInteger (q : number) : bool :=
  bool_decide (Qden (this q) = 1%positive).

(** The leaf a zero-based index designates: the page tree counts the
    index down by one per leaf and takes the leaf at which the count is
    exactly zero. *)
Definition leafIndex (index : number) : option nat :=
  if isInteger index && bool_decide (0 ≤ Qnum (this index))%Z
  then Some (Z.to_nat (Qnum (this index)))
  else None.

(** [pdfDoc.removePage(index)]: refuses a document without pages and an
    index outside [0 .. pageCount - 1], then removes the leaf. *)
Definition removePage (doc : PDFDocument) (index : number) : result PDFDocument :=
  let pageCount := getPageCount doc in
  if bool_decide (pageCount = 0) then Throw RemovePageFromEmptyDocumentError
  else if bool_decide (index < 0)%Qc || bool_decide (ofNat pageCount - 1 < index)%Qc
  then Throw (IndexOutOfRange index 0%Qc (ofNat pageCount - 1)%Qc)
  else match leafIndex index with
       | Some i => Ok (delete i doc)
       | None => Throw (InvalidTargetIndexError index pageCount)
       end.

Definition getPageIndices (doc : PDFDocument) : list nat :=
  seq 0 (getPageCount doc).

(** [dst.copyPages(src, indices)]: the pages of [src] at [indices]. *)
Definition copyPages (src : PDFDocument) (indices : list nat)
  : result (list Page) :=
  mapM (fun i => match src !! i with
                 | Some page => Ok page
                 | None => Throw TypeError
                 end) indices.

Definition addPage (doc : PDFDocument) (page : Page) : PDFDocument :=
  doc ++ [page].

(** The document that [save] writes: with its default [addDefaultPage]
    a document without pages first gets a blank page. *)
Definition withDefaultPage (doc : PDFDocument) : PDFDocument :=
  if bool_decide (getPageCount doc = 0) then addPage doc blankPage else doc.

(** [pdfDoc.save()]. *)
Definition save (doc : PDFDocument) : result (list byte) :=
  serialize (withDefaultPage doc).

(** [xs.join(', ')] on an array of numbers. *)
Definition join (sep : string) (xs : list number) : string :=
  String.concat sep (map Number_toString xs).

(** [[...pageNumbers].sort((a, b) => b - a)]: descending order. *)
Definition sortDescending (pageNumbers : list number) : list number :=
  merge_sort (flip Qcle) pageNumbers.

(** *** remove-pdf-pages *)

Definition invalidPagesOf (totalPages : nat) (pageNumbers : list number)
  : list number :=
  filter (fun num => (num < 1)%Qc \/ (ofNat totalPages < num)%Qc) pageNumbers.

Definition invalidText (invalidPages : list number) (totalPages : nat) : string :=
  "Error: Invalid page numbers: " ++ join ", " invalidPages
  ++ ". The document has " ++ Number_toString (ofNat totalPages) ++ " pages.".

Definition removedText (pageNumbers : list number) : string :=
  "Successfully removed " ++ Number_toString (ofNat (length pageNumbers))
  ++ " pages from the PDF.".

Definition processingText (e : exn) : string :=
  "Error processing PDF: " ++ message e.

(** The body of the [try] block. *)
Definition remove_pdf_pages_try (fs : FS) (pdfPath : string)
  (pageNumbers : list number) : FS * result string :=
  pdfData ←{fs} readFileSync fs pdfPath;
  pdfDoc ←{fs} load pdfData;
  let totalPages := getPageCount pdfDoc in
  let invalidPages := invalidPagesOf totalPages pageNumbers in
  if (0 <? length invalidPages)%nat then
    (fs, Ok (invalidText invalidPages totalPages))
  else
    let sortedPageNumbers := sortDescending pageNumbers in
    pdfDoc' ←{fs} forOf (fun doc pageNum => removePage doc (pageNum - 1)%Qc)
                        pdfDoc sortedPageNumbers;
    modifiedPdfBytes ←{fs} save pdfDoc';
    let modifiedPdfBase64 := Base64.encode modifiedPdfBytes in
    let '(fs', written) := writeFileSync fs pdfPath modifiedPdfBase64 in
    _ ←{fs'} written;
    (fs', Ok (removedText pageNumbers)).

(** The handler: the [try] block, and the [catch] that turns what was
    thrown into the answer. *)
Definition remove_pdf_pages (fs : FS) (pdfPath : string)
  (pageNumbers : list number) : FS * string :=
  match remove_pdf_pages_try fs pdfPath pageNumbers with
  | (fs', Ok text) => (fs', text)
  | (fs', Throw error) => (fs', processingText error)
  end.

(** *** add-text-watermark *)

Definition rgb (r g b : number) : number * number * number := (r, g, b).
Definition degrees (d : number) : number := d.

Definition watermarkedText : string :=
  "Successfully added text watermark to the PDF.".

(** The handler of [src/index.ts]: the text is anchored at the middle of
    every page. *)
Definition add_text_watermark_ts_try (fs : FS) (watermarkText pdfPath : string)
  : FS * result string :=
  pdfData ←{fs} readFileSync fs pdfPath;
  pdfDoc ←{fs} load pdfData;
  let helveticaFont := Helvetica in
  let pages := pdfDoc in
  pages' ←{fs} mapM (fun page =>
      let '(width, height) := getSize page in
      drawText page watermarkText
        {| Options.x := (width / num 2 - num 150)%Qc;
           Options.y := (height / num 2)%Qc;
           Options.size := num 50;
           Options.font := helveticaFont;
           Options.color := rgb (Q2Qc (1 # 2)) (Q2Qc (1 # 2)) (Q2Qc (1 # 2));
           Options.opacity := Q2Qc (3 # 10);
           Options.rotate := degrees (num 45) |}) pages;
  modifiedPdfBytes ←{fs} save pages';
  let modifiedPdfBase64 := Base64.encode modifiedPdfBytes in
  let '(fs', written) := writeFileSync fs pdfPath modifiedPdfBase64 in
  _ ←{fs'} written;
  (fs', Ok watermarkedText).

Definition add_text_watermark_ts (fs : FS) (watermarkText pdfPath : string)
  : FS * string :=
  match add_text_watermark_ts_try fs watermarkText pdfPath with
  | (fs', Ok text) => (fs', text)
  | (fs', Throw error) => (fs', processingText error)
  end.

(** The built handler takes a [position]. *)
Inductive Position : Type :=
  | center | top | bottom | topLeft | topRight | bottomLeft | bottomRight.

Definition textSize : number := num 50.
Definition padding : number := num 50.

(** The [switch (position)] of the page loop: the anchor [(x, y)]. *)
Definition anchor (position : Position) (width height : number)
  : number * number :=
  match position with
  | center => ((width / num 2 - num 150)%Qc, (height / num 2)%Qc)
  | top => ((width / num 2 - num 150)%Qc, (height - padding)%Qc)
  | bottom => ((width / num 2 - num 150)%Qc, (padding + textSize)%Qc)
  | topLeft => (padding, (height - padding)%Qc)
  | topRight => ((width - num 300)%Qc, (height - padding)%Qc)
  | bottomLeft => (padding, (padding + textSize)%Qc)
  | bottomRight => ((width - num 300)%Qc, (padding + textSize)%Qc)
  end.

Definition watermarkOptions (position : Position) (width height : number)
  : DrawTextOptions :=
  let '(x, y) := anchor position width height in
  {| Options.x := x;
     Options.y := y;
     Options.size := textSize;
     Options.font := Helvetica;
     Options.color := rgb (num 1) (num 0) (num 0);
     Options.opacity := Q2Qc (8 # 10);
     Options.rotate := degrees (num 45) |}.

Definition add_text_watermark_try (fs : FS) (watermarkText pdfPath : string)
  (position : Position) : FS * result string :=
  pdfData ←{fs} readFileSync fs pdfPath;
  pdfDoc ←{fs} load pdfData;
  let pages := pdfDoc in
  pages' ←{fs} mapM (fun page =>
      let '(width, height) := getSize page in
      drawText page watermarkText (watermarkOptions position width height))
    pages;
  modifiedPdfBytes ←{fs} save pages';
  let modifiedPdfBase64 := Base64.encode modifiedPdfBytes in
  let '(fs', written) := writeFileSync fs pdfPath modifiedPdfBase64 in
  _ ←{fs'} written;
  (fs', Ok watermarkedText).

Definition add_text_watermark (fs : FS) (watermarkText pdfPath : string)
  (position : Position) : FS * string :=
  match add_text_watermark_try fs watermarkText pdfPath position with
  | (fs', Ok text) => (fs', text)
  | (fs', Throw error) => (fs', processingText error)
  end.

(** *** merge-pdfs *)

Definition mergedText (pdfPaths : list string) (outputPath : string) : string :=
  "Successfully merged " ++ Number_toString (ofNat (length pdfPaths))
  ++ " PDFs into " ++ outputPath.

Definition mergingText (e : exn) : string :=
  "Error merging PDFs: " ++ message e.

(** One turn of [for (const pdfPath of pdfPaths)]. *)
Definition merge_step (fs : FS) (mergedPdf : PDFDocument) (pdfPath : string)
  : result PDFDocument :=
  pdfData ← readFileSync fs pdfPath;
  pdf ← load pdfData;
  copiedPages ← copyPages pdf (getPageIndices pdf);
  Ok (foldl addPage mergedPdf copiedPages).

Definition merge_pdfs_try (fs : FS) (pdfPaths : list string)
  (outputPath : string) : FS * result string :=
  let mergedPdf : PDFDocument := [] in
  mergedPdf' ←{fs} forOf (merge_step fs) mergedPdf pdfPaths;
  mergedPdfBytes ←{fs} save mergedPdf';
  let mergedPdfBase64 := Base64.encode mergedPdfBytes in
  let '(fs', written) := writeFileSync fs outputPath mergedPdfBase64 in
  _ ←{fs'} written;
  (fs', Ok (mergedText pdfPaths outputPath)).

Definition merge_pdfs (fs : FS) (pdfPaths : list string) (outputPath : string)
  : FS * string :=
  match merge_pdfs_try fs pdfPaths outputPath with
  | (fs', Ok text) => (fs', text)
  | (fs', Throw error) => (fs', mergingText error)
  end.

(** The end of a handler once the bytes are there: the write, and the
    answer that goes with its outcome. *)
Definition writeThenAnswer (fs : FS) (path : string) (bytes : list byte)
  (success : string) (failure : exn -> string) : FS * string :=
  match diskWrite path bytes with
  | Stored => (<[resolve path := bytes]> fs, success)
  | NotOpened e => (fs, failure e)
  | Interrupted e written =>
      (<[resolve path := take written bytes]> fs, failure e)
  end.

End Handlers.

(** ** The tool surface *)

(** A tool call as the dispatcher receives it: one constructor per
    [server.tool] registration ([add-text-watermark] is registered
    without [position] in the TypeScript source and with it in the
    build). *)
Inductive Call : Type :=
  | RemovePdfPages (pdfPath : string) (pageNumbers : list number)
  | AddTextWatermarkTs (watermarkText pdfPath : string)
  | AddTextWatermark (watermarkText pdfPath : string) (position : Position)
  | MergePdfs (pdfPaths : list string) (outputPath : string).

(** The file a call writes on success. *)
Definition destination (c : Call) : string :=
  match c with
  | RemovePdfPages pdfPath _ => pdfPath
  | AddTextWatermarkTs _ pdfPath => pdfPath
  | AddTextWatermark _ pdfPath _ => pdfPath
  | MergePdfs _ outputPath => outputPath
  end.

Definition isErrorText (text : string) : bool := String.prefix "Error" text.
Definition isSuccessText (text : string) : bool :=
  String.prefix "Successfully" text.

Section Dispatch.
Context `{P : Platform}.

Definition run (fs : FS) (c : Call) : FS * string :=
  match c with
  | RemovePdfPages pdfPath pageNumbers =>
      remove_pdf_pages fs pdfPath pageNumbers
  | AddTextWatermarkTs watermarkText pdfPath =>
      add_text_watermark_ts fs watermarkText pdfPath
  | AddTextWatermark watermarkText pdfPath position =>
      add_text_watermark fs watermarkText pdfPath position
  | MergePdfs pdfPaths outputPath =>
      merge_pdfs fs pdfPaths outputPath
  end.

(** The ways a handler ends: an exception before the file is opened,
    the validation error, the file written, or the write interrupted. *)
Inductive Outcome (fs : FS) (c : Call) : FS * string -> Prop :=
  | Caught (text : string) :
      isErrorText text = true -> isSuccessText text = false ->
      Outcome fs c (fs, text)
  | Rejected (invalidPages : list number) (totalPages : nat) :
      Outcome fs c (fs, invalidText invalidPages totalPages)
  | Written (doc : PDFDocument) (bytes : list byte) (text : string) :
      serialize doc = Ok bytes ->
      diskWrite (destination c) bytes = Stored ->
      isErrorText text = false -> isSuccessText text = true ->
      Outcome fs c (<[resolve (destination c) := bytes]> fs, text)
  | Broken (doc : PDFDocument) (bytes : list byte) (e : exn) (written : nat)
      (text : string) :
      serialize doc = Ok bytes ->
      diskWrite (destination c) bytes = Interrupted e written ->
      isErrorText text = true -> isSuccessText text = false ->
      Outcome fs c (<[resolve (destination c) := take written bytes]> fs, text).

(** The removal loop of [remove-pdf-pages]. *)
Definition removeAll (doc : PDFDocument) (sortedPageNumbers : list number)
  : result PDFDocument :=
  forOf (fun doc pageNum => removePage doc (pageNum - 1)%Qc)
        doc sortedPageNumbers.

(** A page number of a document with [n] pages. *)
Definition inRange (n : nat) (q : number) : Prop := (1 ≤ q ∧ q ≤ ofNat n)%Qc.

(** [path] holds a file that loads as [doc]. *)
Definition loadsAs (fs : FS) (path : string) (doc : PDFDocument) : Prop :=
  exists content : list byte,
    fs !! resolve path = Some content /\ parse content = Ok doc.

End Dispatch.

(** ** Pages and options to state results with *)
Section Pages.
Context `{P : Platform}.

(** The pages of [doc] whose page number is not among [pageNumbers], in
    their order; the first page of [doc] has number [first + 1]. *)
Fixpoint keepFrom (first : nat) (doc : PDFDocument) (pageNumbers : list number)
  : PDFDocument :=
  match doc with
  | [] => []
  | page :: rest =>
      if bool_decide (ofNat (S first) ∈ pageNumbers)
      then keepFrom (S first) rest pageNumbers
      else page :: keepFrom (S first) rest pageNumbers
  end.

Definition otherPages (doc : PDFDocument) (pageNumbers : list number)
  : PDFDocument :=
  keepFrom 0 doc pageNumbers.

(** The options object that the handler of the TypeScript source passes
    to [drawText] on a page of the given size. *)
Definition watermarkOptionsTs (width height : number) : DrawTextOptions :=
  {| Options.x := (width / num 2 - num 150)%Qc;
     Options.y := (height / num 2)%Qc;
     Options.size := num 50;
     Options.font := Helvetica;
     Options.color := rgb (Q2Qc (1 # 2)) (Q2Qc (1 # 2)) (Q2Qc (1 # 2));
     Options.opacity := Q2Qc (3 # 10);
     Options.rotate := degrees (num 45) |}.

(** A call of one of the tools that work on a single file in place. *)
Definition inPlace (c : Call) : bool :=
  match c with
  | MergePdfs _ _ => false
  | _ => true
  end.

End Pages.

(** ** A small platform to run the handlers on

    A file is the byte [%] followed by three bytes per page: width,
    height and the number of texts drawn on the page.  A path may
    start with [./]; nothing can be written under [nodir/], a directory
    that does not exist, and [full/] is a volume with no space left. *)
Module Mini.

Definition MiniPage : Type := byte * byte * byte.

Fixpoint parsePages (bs : list byte) : result (list MiniPage) :=
  match bs with
  | [] => Ok []
  | w :: h :: k :: rest => pages ← parsePages rest; Ok ((w, h, k) :: pages)
  | _ => Throw (LibraryError "truncated page")
  end.

Definition parse (bs : list byte) : result (list MiniPage) :=
  match bs with
  | "%"%byte :: rest => parsePages rest
  | _ => Throw (LibraryError "No PDF header found")
  end.

Definition blankPage : MiniPage := (x3c, x54, x00).

Definition serializePages (pages : list MiniPage) : list byte :=
  flat_map (fun '(w, h, k) => [w; h; k]) pages.

Definition serialize (pages : list MiniPage) : result (list byte) :=
  Ok ("%"%byte :: serializePages pages).

Definition getSize (page : MiniPage) : number * number :=
  let '(w, h, _) := page in
  (Qc_of_Z (Z.of_N (Byte.to_N w)), Qc_of_Z (Z.of_N (Byte.to_N h))).

Definition drawText (page : MiniPage) (text : string) (_ : DrawTextOptions)
  : result MiniPage :=
  let '(w, h, k) := page in
  match Byte.of_N (Byte.to_N k + 1) with
  | Some k' => Ok (w, h, k')
  | None => Throw (LibraryError "content stream full")
  end.

(** Decimal digits for an integer, numerator and denominator otherwise. *)
Definition Number_toString (q : number) : string :=
  if bool_decide (Qden (this q) = 1%positive) then pretty (Qnum (this q))
  else pretty (Qnum (this q)) ++ "/" ++ pretty (Zpos (Qden (this q))).

Definition message (e : exn) : string :=
  match e with
  | ENOENT path => "ENOENT: no such file or directory, open '" ++ path ++ "'"
  | RemovePageFromEmptyDocumentError => "PDFDocument has no pages"
  | IndexOutOfRange index min max =>
      "`index` must be at least " ++ Number_toString min ++ " and at most "
      ++ Number_toString max ++ ", but was actually " ++ Number_toString index
  | InvalidTargetIndexError targetIndex Count =>
      "Invalid targetIndex specified: targetIndex=" ++ Number_toString targetIndex
      ++ " must be less than Count=" ++ pretty Count
  | TypeError => "Cannot read properties of undefined"
  | ENOSPC => "ENOSPC: no space left on device, write"
  | LibraryError msg => msg
  end.

Fixpoint resolve (path : string) : string :=
  match path with
  | String "." (String "/" rest) => resolve rest
  | _ => path
  end.

Definition diskWrite (path : string) (bytes : list byte) : WriteOutcome :=
  if String.prefix "nodir/" (resolve path) then NotOpened (ENOENT path)
  else if String.prefix "full/" (resolve path) then Interrupted ENOSPC 0
  else Stored.

Definition platform : Platform :=
  Build_Platform MiniPage parse serialize blankPage getSize drawText
                 Number_toString message resolve diskWrite.

(** Three pages of different sizes, and two more. *)
Definition docA : list byte := ["%"; "1"; "1"; x00; "2"; "2"; x00; "3"; "3"; x00]%byte.
Definition docB : list byte := ["%"; "4"; "4"; x00; "5"; "5"; x00]%byte.

Definition disk : gmap string (list byte) :=
  <["a.pdf" := docA]> (<["b.pdf" := docB]> ∅).

(** The pages of the two files. *)
Definition pagesA : list MiniPage :=
  [("1", "1", x00); ("2", "2", x00); ("3", "3", x00)]%byte.
Definition pagesB : list MiniPage :=
  [("4", "4", x00); ("5", "5", x00)]%byte.

(** A file without pages, and the two files with a copy of the first
    on the full volume. *)
Definition emptyDisk : gmap string (list byte) :=
  <["e.pdf" := ["%"%byte]]> ∅.
Definition fullDisk : gmap string (list byte) :=
  <["full/a.pdf" := docA]> disk.

End Mini.


(** ** Base64: decoding undoes encoding *)
Module Base64Facts.
Import Base64.

Lemma b64val_b64char (n : N) : (n < 64)%N -> b64val (b64char n) = Some n.
Proof.
  intros Hn.
  assert (Hall : forallb (fun k => bool_decide (b64val (b64char k) = Some k))
                   (map N.of_nat (seq 0 64)) = true) by (vm_compute; reflexivity).
  rewrite forallb_forall in Hall.
  assert (Hin : In n (map N.of_nat (seq 0 64))).
  { apply in_map_iff. exists (N.to_nat n). split; [lia|]. apply in_seq. lia. }
  apply Hall in Hin. now apply bool_decide_eq_true_1 in Hin.
Qed.

Lemma b64val_pad : b64val "="%char = None.
Proof. reflexivity. Qed.

Lemma byteOf_to_N (b : byte) (n : N) : (n mod 256)%N = Byte.to_N b -> byteOf n = b.
Proof. intros H. unfold byteOf. now rewrite H, Byte.of_to_N. Qed.

Lemma to_N_lt (b : byte) : (Byte.to_N b < 256)%N.
Proof. pose proof (Byte.to_N_bounded b). lia. Qed.

Ltac sextet_step :=
  rewrite b64val_b64char by divlia.

(** Decoding undoes encoding on every byte sequence. *)
Lemma decode_encode (bs : list byte) : decode (encode bs) = bs.
Proof.
  unfold decode.
  induction bs as [bs IH] using (induction_ltof1 _ (@length byte)).
  unfold ltof in IH.
  destruct bs as [|a [|b [|c rest]]]; [reflexivity| | |].
  - pose proof (to_N_lt a). cbn [encode sextets].
    do 2 sextet_step. rewrite b64val_pad. cbn [sextets pack].
    f_equal. apply byteOf_to_N. divlia.
  - pose proof (to_N_lt a). pose proof (to_N_lt b). cbn [encode sextets].
    do 3 sextet_step. rewrite b64val_pad. cbn [sextets pack].
    f_equal; [|f_equal]; apply byteOf_to_N; divlia.
  - pose proof (to_N_lt a). pose proof (to_N_lt b). pose proof (to_N_lt c).
    cbn [encode sextets]. do 4 sextet_step. cbn [pack].
    rewrite IH by (cbn [length]; lia).
    f_equal; [|f_equal; [|f_equal]]; apply byteOf_to_N; divlia.
Qed.

(** The text of [n] bytes has [4 * ceil (n / 3)] characters. *)
Lemma encode_length (bs : list byte) :
  String.length (encode bs) = 4 * ((length bs + 2) / 3).
Proof.
  induction bs as [bs IH] using (induction_ltof1 _ (@length byte)).
  unfold ltof in IH.
  destruct bs as [|a [|b [|c rest]]]; [reflexivity..|].
  cbn [encode String.length length]. rewrite IH by (cbn [length]; lia).
  replace (S (S (S (length rest))) + 2) with (length rest + 2 + 1 * 3) by lia.
  rewrite Nat.div_add by lia. lia.
Qed.

End Base64Facts.

Open Scope list_scope.

(** ** Numbers *)
Section Numbers.

Lemma ofNat_le (m n : nat) : (ofNat m ≤ ofNat n)%Qc <-> m <= n.
Proof. unfold ofNat. rewrite <- Z2Qc_inj_le. lia. Qed.

Lemma ofNat_lt (m n : nat) : (ofNat m < ofNat n)%Qc <-> m < n.
Proof. unfold ofNat. rewrite <- Z2Qc_inj_lt. lia. Qed.

Lemma ofNat_pred (n : nat) : (ofNat (S n) - 1)%Qc = ofNat n.
Proof.
  unfold ofNat. rewrite <- Z2Qc_inj_1, <- Z2Qc_inj_sub. f_equal. lia.
Qed.

Lemma ofNat_inj (m n : nat) : ofNat m = ofNat n -> m = n.
Proof. unfold ofNat. intros H. apply Z2Qc_inj in H. lia. Qed.

Lemma isInteger_Qc_of_Z (z : Z) : isInteger (Qc_of_Z z) = true.
Proof. reflexivity. Qed.

Lemma isInteger_spec (q : number) :
  isInteger q = true <-> exists z : Z, q = Qc_of_Z z.
Proof.
  split.
  - unfold isInteger. intros H%bool_decide_eq_true_1.
    exists (Qnum (this q)). apply Qc_is_canon. simpl.
    destruct q as [[n d] Hc]. simpl in *. subst d. reflexivity.
  - intros [z ->]. apply isInteger_Qc_of_Z.
Qed.

Lemma leafIndex_ofNat (n : nat) : leafIndex (ofNat n) = Some n.
Proof.
  unfold leafIndex, ofNat. rewrite isInteger_Qc_of_Z. simpl.
  rewrite bool_decide_eq_true_2 by lia. f_equal. lia.
Qed.

Lemma leafIndex_None (q : number) : isInteger q = false -> leafIndex q = None.
Proof. unfold leafIndex. now intros ->. Qed.

Lemma leafIndex_Some (q : number) (i : nat) :
  leafIndex q = Some i -> q = ofNat i.
Proof.
  unfold leafIndex.
  destruct (isInteger q) eqn:Hint; [|discriminate]. simpl.
  case_bool_decide; [|discriminate]. intros [= <-].
  apply isInteger_spec in Hint as [z ->]. simpl in *.
  unfold ofNat. f_equal. lia.
Qed.

(** Subtracting one keeps a number integral or not. *)
Lemma isInteger_pred (q : number) : isInteger (q - 1)%Qc = isInteger q.
Proof.
  apply eq_true_iff_eq. rewrite !isInteger_spec. split; intros [z Hz].
  - exists (z + 1)%Z. rewrite Z2Qc_inj_add, <- Hz, Z2Qc_inj_1. ring.
  - exists (z - 1)%Z. rewrite Z2Qc_inj_sub, <- Hz, Z2Qc_inj_1. ring.
Qed.

End Numbers.

(** ** The library operations *)
Section Library.
Context `{P : Platform}.

(** The round trip through base64 text is the identity: a handler
    parses the raw content of the file it reads, *)
Lemma load_readFileSync (fs : FS) (path : string) (bytes : list byte) :
  fs !! resolve path = Some bytes ->
  (readFileSync fs path ≫= load) = parse bytes.
Proof.
  intros H. unfold readFileSync, load. rewrite H. simpl.
  now rewrite Base64Facts.decode_encode.
Qed.

Lemma load_readFileSync_None (fs : FS) (path : string) :
  fs !! resolve path = None ->
  (readFileSync fs path ≫= load) = Throw (ENOENT path).
Proof. intros H. unfold readFileSync. now rewrite H. Qed.

(** and writes the raw bytes it serialised. *)
Lemma writeFileSync_encode (fs : FS) (path : string) (bytes : list byte) :
  writeFileSync fs path (Base64.encode bytes) =
  match diskWrite path bytes with
  | Stored => (<[resolve path := bytes]> fs, Ok tt)
  | NotOpened e => (fs, Throw e)
  | Interrupted e written =>
      (<[resolve path := take written bytes]> fs, Throw e)
  end.
Proof. unfold writeFileSync. now rewrite Base64Facts.decode_encode. Qed.

(** The last two steps of every handler and its [catch]. *)
Lemma write_then_answer (fs : FS) (path : string) (bytes : list byte)
  (success : string) (failure : exn -> string) :
  match
    (let '(fs', written) := writeFileSync fs path (Base64.encode bytes) in
     _ ←{fs'} written; (fs', Ok success))
  with
  | (fs', Ok text) => (fs', text)
  | (fs', Throw error) => (fs', failure error)
  end = writeThenAnswer fs path bytes success failure.
Proof.
  rewrite writeFileSync_encode. unfold writeThenAnswer.
  by destruct (diskWrite path bytes).
Qed.

Lemma save_serialize (doc : PDFDocument) :
  save doc = serialize (withDefaultPage doc).
Proof. done. Qed.

Lemma withDefaultPage_nil : withDefaultPage [] = [blankPage].
Proof. done. Qed.

Lemma withDefaultPage_pages (doc : PDFDocument) :
  doc <> [] -> withDefaultPage doc = doc.
Proof.
  intros Hne. unfold withDefaultPage, getPageCount.
  rewrite bool_decide_eq_false_2; [done|]. by destruct doc.
Qed.

Lemma withDefaultPage_length (doc : PDFDocument) :
  length (withDefaultPage doc) = Nat.max 1 (length doc).
Proof.
  destruct doc as [|page doc]; [done|].
  rewrite withDefaultPage_pages by done. simpl. lia.
Qed.

Lemma removePage_ofNat (doc : PDFDocument) (i : nat) :
  i < length doc -> removePage doc (ofNat i) = Ok (delete i doc).
Proof.
  intros Hi. unfold removePage, getPageCount.
  rewrite bool_decide_eq_false_2 by lia.
  destruct (length doc) as [|m] eqn:Hlen; [lia|].
  rewrite ofNat_pred.
  rewrite (bool_decide_eq_false_2 (ofNat i < 0)%Qc).
  2:{ replace 0%Qc with (ofNat 0) by apply Z2Qc_inj_0. rewrite ofNat_lt. lia. }
  rewrite (bool_decide_eq_false_2 (ofNat m < ofNat i)%Qc)
    by (rewrite ofNat_lt; lia).
  simpl. now rewrite leafIndex_ofNat.
Qed.

Lemma removePage_Ok (doc doc' : PDFDocument) (index : number) :
  removePage doc index = Ok doc' ->
  exists i : nat, index = ofNat i /\ i < length doc /\ doc' = delete i doc.
Proof.
  unfold removePage, getPageCount.
  case_bool_decide as Hlen; [discriminate|].
  destruct (length doc) as [|m]; [done|]. rewrite ofNat_pred.
  destruct (bool_decide (index < 0)%Qc) eqn:H0; [discriminate|].
  destruct (bool_decide (ofNat m < index)%Qc) eqn:Hmax; [discriminate|].
  simpl. destruct (leafIndex index) as [i|] eqn:Hleaf; [|discriminate].
  intros [= <-]. apply leafIndex_Some in Hleaf as ->.
  apply bool_decide_eq_false_1 in Hmax. rewrite ofNat_lt in Hmax.
  exists i. split_and!; [done|lia|done].
Qed.

(** A fractional index inside the range is refused by the page tree. *)
Lemma removePage_fraction (doc : PDFDocument) (index : number) :
  isInteger index = false ->
  exists e, removePage doc index = Throw e.
Proof.
  intros Hint. unfold removePage.
  destruct (bool_decide (getPageCount doc = 0)); [eauto|].
  destruct (bool_decide (index < 0)%Qc || _); [eauto|].
  rewrite leafIndex_None by done. eauto.
Qed.

Lemma removePage_length (doc doc' : PDFDocument) (index : number) :
  removePage doc index = Ok doc' -> S (length doc') = length doc.
Proof.
  intros (i & _ & Hi & ->)%removePage_Ok.
  rewrite length_delete by (apply lookup_lt_is_Some; lia). lia.
Qed.

(** Every turn that does not throw takes one page away. *)
Lemma removeAll_length (ns : list number) (doc doc' : PDFDocument) :
  removeAll doc ns = Ok doc' -> length doc' + length ns = length doc.
Proof.
  revert doc. induction ns as [|n ns IH]; intros doc; simpl.
  - intros [= <-]. lia.
  - unfold removeAll. simpl.
    destruct (removePage doc (n - 1)%Qc) as [d|e] eqn:Hrm; [|discriminate].
    simpl. intros H%IH. apply removePage_length in Hrm. lia.
Qed.

(** A strictly descending list of page numbers of the document is
    removed without an exception. *)
Lemma removeAll_descending (ns : list number) (doc : PDFDocument) :
  StronglySorted (flip Qcle) ns -> NoDup ns ->
  Forall (fun q => exists k : nat, q = ofNat k /\ 1 <= k <= length doc) ns ->
  exists doc', removeAll doc ns = Ok doc'.
Proof.
  revert doc. induction ns as [|n ns IH]; intros doc Hs Hnd Hall.
  - eexists. reflexivity.
  - apply StronglySorted_inv in Hs as [Hs Hhd].
    apply NoDup_cons in Hnd as [Hnotin Hnd].
    apply Forall_cons in Hall as [(k & -> & Hk) Hall].
    destruct k as [|i]; [lia|].
    unfold removeAll. simpl. rewrite ofNat_pred.
    rewrite removePage_ofNat by lia. simpl.
    apply IH; [done..|].
    rewrite Forall_forall in *. intros q Hq.
    destruct (Hall q Hq) as (k' & -> & Hk'). exists k'. split; [done|].
    assert (k' <= S i) by (apply ofNat_le, (Hhd _ Hq)).
    assert (k' <> S i) by (intros ->; done).
    rewrite length_delete by (apply lookup_lt_is_Some; lia). lia.
Qed.

(** A list that holds a fraction is never removed entirely. *)
Lemma removeAll_fraction (ns : list number) (doc : PDFDocument) :
  Exists (fun q => isInteger q = false) ns ->
  exists e, removeAll doc ns = Throw e.
Proof.
  revert doc. induction ns as [|n ns IH]; intros doc Hex.
  - inversion Hex.
  - unfold removeAll. simpl.
    destruct (removePage doc (n - 1)%Qc) as [d|e] eqn:Hrm; [|eauto].
    simpl. apply Exists_cons in Hex as [Hn|Hex]; [|by apply IH].
    destruct (removePage_fraction doc (n - 1)%Qc) as [e He].
    { now rewrite isInteger_pred. }
    congruence.
Qed.

End Library.

Section DispatchFacts.
Context `{P : Platform}.

Lemma invalidText_error (invalidPages : list number) (totalPages : nat) :
  isErrorText (invalidText invalidPages totalPages) = true
  /\ isSuccessText (invalidText invalidPages totalPages) = false.
Proof. done. Qed.

Lemma writeThenAnswer_outcome (fs : FS) (c : Call) (doc : PDFDocument)
  (bytes : list byte) (success : string) (failure : exn -> string) :
  serialize doc = Ok bytes ->
  isErrorText success = false -> isSuccessText success = true ->
  (forall e, isErrorText (failure e) = true /\ isSuccessText (failure e) = false) ->
  Outcome fs c (writeThenAnswer fs (destination c) bytes success failure).
Proof.
  intros Hs Herr Hsucc Hfail. unfold writeThenAnswer.
  destruct (diskWrite (destination c) bytes) as [|e|e written] eqn:Hw.
  - by apply (Written _ _ doc).
  - apply Caught; apply Hfail.
  - apply (Broken _ _ doc bytes e written); [done|done|apply Hfail..].
Qed.

(** What [remove-pdf-pages] returns once the file is read. *)
Lemma remove_pdf_pages_unfold (fs : FS) (pdfPath : string)
  (pageNumbers : list number) :
  remove_pdf_pages fs pdfPath pageNumbers =
  match readFileSync fs pdfPath ≫= load with
  | Ok doc =>
      match invalidPagesOf (length doc) pageNumbers with
      | [] =>
          match removeAll doc (sortDescending pageNumbers) with
          | Ok doc' =>
              match save doc' with
              | Ok bytes =>
                  writeThenAnswer fs pdfPath bytes (removedText pageNumbers)
                                  processingText
              | Throw e => (fs, processingText e)
              end
          | Throw e => (fs, processingText e)
          end
      | _ :: _ =>
          (fs, invalidText (invalidPagesOf (length doc) pageNumbers)
                           (length doc))
      end
  | Throw e => (fs, processingText e)
  end.
Proof.
  unfold remove_pdf_pages, remove_pdf_pages_try.
  destruct (readFileSync fs pdfPath) as [pdfData|e]; simpl; [|done].
  destruct (load pdfData) as [doc|e]; simpl; [|done].
  unfold getPageCount.
  destruct (invalidPagesOf (length doc) pageNumbers); simpl; [|done].
  fold (removeAll doc (sortDescending pageNumbers)).
  destruct (removeAll doc _) as [doc'|e]; simpl; [|done].
  destruct (save doc') as [bytes|e]; simpl; [|done].
  apply write_then_answer.
Qed.

(** What the two [add-text-watermark] handlers return. *)
Lemma add_text_watermark_ts_unfold (fs : FS) (watermarkText pdfPath : string) :
  add_text_watermark_ts fs watermarkText pdfPath =
  match readFileSync fs pdfPath ≫= load with
  | Ok doc =>
      match mapM (fun page =>
                    let '(width, height) := getSize page in
                    drawText page watermarkText
                             (watermarkOptionsTs width height)) doc with
      | Ok pages' =>
          match save pages' with
          | Ok bytes =>
              writeThenAnswer fs pdfPath bytes watermarkedText processingText
          | Throw e => (fs, processingText e)
          end
      | Throw e => (fs, processingText e)
      end
  | Throw e => (fs, processingText e)
  end.
Proof.
  unfold add_text_watermark_ts, add_text_watermark_ts_try.
  destruct (readFileSync fs pdfPath) as [pdfData|e]; simpl; [|done].
  destruct (load pdfData) as [doc|e]; simpl; [|done].
  unfold watermarkOptionsTs.
  destruct (mapM _ doc) as [pages'|e]; simpl; [|done].
  destruct (save pages') as [bytes|e]; simpl; [|done].
  apply write_then_answer.
Qed.

Lemma add_text_watermark_unfold (fs : FS) (watermarkText pdfPath : string)
  (position : Position) :
  add_text_watermark fs watermarkText pdfPath position =
  match readFileSync fs pdfPath ≫= load with
  | Ok doc =>
      match mapM (fun page =>
                    let '(width, height) := getSize page in
                    drawText page watermarkText
                             (watermarkOptions position width height)) doc with
      | Ok pages' =>
          match save pages' with
          | Ok bytes =>
              writeThenAnswer fs pdfPath bytes watermarkedText processingText
          | Throw e => (fs, processingText e)
          end
      | Throw e => (fs, processingText e)
      end
  | Throw e => (fs, processingText e)
  end.
Proof.
  unfold add_text_watermark, add_text_watermark_try.
  destruct (readFileSync fs pdfPath) as [pdfData|e]; simpl; [|done].
  destruct (load pdfData) as [doc|e]; simpl; [|done].
  destruct (mapM _ doc) as [pages'|e]; simpl; [|done].
  destruct (save pages') as [bytes|e]; simpl; [|done].
  apply write_then_answer.
Qed.

(** What [merge-pdfs] returns, from the outcome of its loop. *)
Lemma merge_pdfs_unfold (fs : FS) (pdfPaths : list string) (outputPath : string) :
  merge_pdfs fs pdfPaths outputPath =
  match forOf (merge_step fs) [] pdfPaths with
  | Ok mergedPdf =>
      match save mergedPdf with
      | Ok bytes =>
          writeThenAnswer fs outputPath bytes (mergedText pdfPaths outputPath)
                          mergingText
      | Throw e => (fs, mergingText e)
      end
  | Throw e => (fs, mergingText e)
  end.
Proof.
  unfold merge_pdfs, merge_pdfs_try.
  destruct (forOf _ _ _) as [mergedPdf|e]; simpl; [|done].
  destruct (save mergedPdf) as [bytes|e]; simpl; [|done].
  apply write_then_answer.
Qed.

Lemma remove_pdf_pages_outcome (fs : FS) (pdfPath : string)
  (pageNumbers : list number) :
  Outcome fs (RemovePdfPages pdfPath pageNumbers)
          (remove_pdf_pages fs pdfPath pageNumbers).
Proof.
  rewrite remove_pdf_pages_unfold.
  destruct (_ ≫= _) as [doc|e]; [|by apply Caught].
  destruct (invalidPagesOf _ _) eqn:Hinv; [|rewrite <- Hinv; apply Rejected].
  destruct (removeAll _ _) as [doc'|e]; [|by apply Caught].
  destruct (save doc') as [bytes|e] eqn:Hs; [|by apply Caught].
  by apply (writeThenAnswer_outcome fs (RemovePdfPages _ _) (withDefaultPage doc')).
Qed.

Lemma add_text_watermark_ts_outcome (fs : FS) (watermarkText pdfPath : string) :
  Outcome fs (AddTextWatermarkTs watermarkText pdfPath)
          (add_text_watermark_ts fs watermarkText pdfPath).
Proof.
  rewrite add_text_watermark_ts_unfold.
  destruct (_ ≫= _) as [doc|e]; [|by apply Caught].
  destruct (mapM _ doc) as [pages'|e]; [|by apply Caught].
  destruct (save pages') as [bytes|e] eqn:Hs; [|by apply Caught].
  by apply (writeThenAnswer_outcome fs (AddTextWatermarkTs _ _)
              (withDefaultPage pages')).
Qed.

Lemma add_text_watermark_outcome (fs : FS) (watermarkText pdfPath : string)
  (position : Position) :
  Outcome fs (AddTextWatermark watermarkText pdfPath position)
          (add_text_watermark fs watermarkText pdfPath position).
Proof.
  rewrite add_text_watermark_unfold.
  destruct (_ ≫= _) as [doc|e]; [|by apply Caught].
  destruct (mapM _ doc) as [pages'|e]; [|by apply Caught].
  destruct (save pages') as [bytes|e] eqn:Hs; [|by apply Caught].
  by apply (writeThenAnswer_outcome fs (AddTextWatermark _ _ _)
              (withDefaultPage pages')).
Qed.

Lemma merge_pdfs_outcome (fs : FS) (pdfPaths : list string) (outputPath : string) :
  Outcome fs (MergePdfs pdfPaths outputPath)
          (merge_pdfs fs pdfPaths outputPath).
Proof.
  rewrite merge_pdfs_unfold.
  destruct (forOf _ _ _) as [mergedPdf|e]; [|by apply Caught].
  destruct (save mergedPdf) as [bytes|e] eqn:Hs; [|by apply Caught].
  by apply (writeThenAnswer_outcome fs (MergePdfs _ _)
              (withDefaultPage mergedPdf)).
Qed.

Lemma run_outcome (fs : FS) (c : Call) : Outcome fs c (run fs c).
Proof.
  destruct c; simpl;
    auto using remove_pdf_pages_outcome, add_text_watermark_ts_outcome,
               add_text_watermark_outcome, merge_pdfs_outcome.
Qed.

End DispatchFacts.

(** ** Claims on the file store *)
Section DiskClaims.
Context `{P : Platform}.

Lemma length_list_byte_of_string (s : string) :
  length (list_byte_of_string s) = String.length s.
Proof. induction s as [|c s IH]; simpl; [done|]. now f_equal. Qed.

(** Base64 text is longer than the bytes it denotes. *)
Lemma base64_text_differs (bytes : list byte) :
  bytes <> [] -> list_byte_of_string (Base64.encode bytes) <> bytes.
Proof.
  intros Hne Heq. apply (f_equal length) in Heq.
  rewrite length_list_byte_of_string, Base64Facts.encode_length in Heq.
  assert (0 < length bytes) by (destruct bytes; simpl; [done|lia]).
  pose proof (Nat.div_mod_eq (length bytes + 2) 3).
  pose proof (Nat.mod_upper_bound (length bytes + 2) 3). lia.
Qed.

(** C1, as the code has it.  After a successful call of any tool the
    destination file holds the very bytes that [save] returned, raw:
    the base64 text exists only in memory, between
    [Buffer.toString('base64')] and the ['base64'] option of
    [writeFileSync], which decodes it again; so the file content is
    never that text.  Likewise a call parses the raw content of the
    file it reads: the ['base64'] option of [readFileSync] encodes the
    content and [load] decodes it back. *)
Theorem disk_holds_raw_pdf_bytes (fs fs' : FS) (c : Call) (text : string) :
  run fs c = (fs', text) ->
  isSuccessText text = true ->
  (exists (doc : PDFDocument) (bytes : list byte),
      serialize doc = Ok bytes
      /\ fs' = <[resolve (destination c) := bytes]> fs
      /\ fs' !! resolve (destination c) = Some bytes
      /\ (bytes <> [] ->
          fs' !! resolve (destination c)
          <> Some (list_byte_of_string (Base64.encode bytes))))
  /\ (forall (path : string) (content : list byte),
        fs !! resolve path = Some content ->
        (readFileSync fs path ≫= load) = parse content).
Proof.
  intros Hrun Hok. split; [|apply load_readFileSync].
  pose proof (run_outcome fs c) as Hout. rewrite Hrun in Hout.
  inversion Hout as [t Herr Hsucc|inv n|doc bytes t Hs Hw Herr Hsucc
                    |doc bytes e written t Hs Hw Herr Hsucc]; subst.
  - congruence.
  - by destruct (invalidText_error inv n) as [_ ?]; congruence.
  - exists doc, bytes. rewrite lookup_insert_eq. split_and!; [done..|].
    intros Hne [= Heq]. by apply (base64_text_differs bytes).
  - congruence.
Qed.

(** C5, as the code has it.  The write is the last step of a handler,
    reached only when loading, validation, the transformation and
    [save] have succeeded.  A call that answers with an error text
    leaves the file store as it found it, with one exception: when the
    write itself fails after the file was opened, the destination holds
    the bytes written until then.  No other file changes, and where no
    write is interrupted every error answer comes with the store
    untouched. *)
Theorem failure_before_write_leaves_disk_untouched (fs fs' : FS) (c : Call)
  (text : string) :
  run fs c = (fs', text) ->
  isErrorText text = true ->
  (fs' = fs
   \/ exists (doc : PDFDocument) (bytes : list byte) (e : exn) (written : nat),
        serialize doc = Ok bytes
        /\ diskWrite (destination c) bytes = Interrupted e written
        /\ fs' = <[resolve (destination c) := take written bytes]> fs)
  /\ (forall file : string,
        file <> resolve (destination c) -> fs' !! file = fs !! file)
  /\ ((forall bytes e written,
         diskWrite (destination c) bytes <> Interrupted e written) ->
      fs' = fs).
Proof.
  intros Hrun Herr.
  pose proof (run_outcome fs c) as Hout. rewrite Hrun in Hout.
  inversion Hout as [t Herr' Hsucc|inv n|doc bytes t Hs Hw Herr' Hsucc
                    |doc bytes e written t Hs Hw Herr' Hsucc]; subst.
  - split_and!; auto.
  - split_and!; auto.
  - congruence.
  - split_and!.
    + right. by exists doc, bytes, e, written.
    + intros file Hne. by rewrite lookup_insert_ne.
    + intros Hnever. by destruct (Hnever bytes e written).
Qed.

(** [merge-pdfs] leaves every file but the one its output path denotes. *)
Lemma merge_pdfs_frame (fs : FS) (pdfPaths : list string)
  (outputPath file : string) :
  file <> resolve outputPath ->
  (merge_pdfs fs pdfPaths outputPath).1 !! file = fs !! file.
Proof.
  intros Hne.
  pose proof (merge_pdfs_outcome fs pdfPaths outputPath) as Hout.
  inversion Hout; simpl in *; [done..| |]; by rewrite lookup_insert_ne.
Qed.

(** C6, as the code has it.  [merge-pdfs] writes the file that the
    output path denotes and no other: every other file is left as it
    was, and after a successful call that file holds what [save]
    returned for the accumulated document.  The handler does not
    compare the output path with the input paths, so an input that
    denotes the same file as the output path, under the same spelling
    or another, is replaced by the merged document. *)
Theorem merge_writes_output_path_only (fs : FS) (pdfPaths : list string)
  (outputPath file : string) :
  file <> resolve outputPath ->
  (merge_pdfs fs pdfPaths outputPath).1 !! file = fs !! file
  /\ (isSuccessText (merge_pdfs fs pdfPaths outputPath).2 = true ->
      exists (mergedPdf : PDFDocument) (bytes : list byte),
        forOf (merge_step fs) [] pdfPaths = Ok mergedPdf
        /\ save mergedPdf = Ok bytes
        /\ (merge_pdfs fs pdfPaths outputPath).1 !! resolve outputPath
           = Some bytes
        /\ forall pdfPath : string,
             resolve pdfPath = resolve outputPath ->
             (merge_pdfs fs pdfPaths outputPath).1 !! resolve pdfPath
             = Some bytes).
Proof.
  intros Hne. split; [by apply merge_pdfs_frame|].
  rewrite merge_pdfs_unfold.
  destruct (forOf _ _ _) as [mergedPdf|e]; [|done].
  destruct (save mergedPdf) as [bytes|e] eqn:Hs; [|done].
  unfold writeThenAnswer.
  destruct (diskWrite outputPath bytes); [|done..].
  intros _. exists mergedPdf, bytes. simpl. rewrite lookup_insert_eq.
  split_and!; [done..|]. intros pdfPath ->. by rewrite lookup_insert_eq.
Qed.

(** The loop of [merge-pdfs] stops at the first file it cannot read. *)
Lemma merge_loop_missing (fs : FS) (pdfPaths : list string)
  (mergedPdf : PDFDocument) :
  Exists (fun path => fs !! resolve path = None) pdfPaths ->
  exists e, forOf (merge_step fs) mergedPdf pdfPaths = Throw e.
Proof.
  revert mergedPdf.
  induction pdfPaths as [|pdfPath rest IH]; intros mergedPdf Hex.
  - inversion Hex.
  - simpl. destruct (merge_step fs mergedPdf pdfPath) as [m|e] eqn:Hstep;
      [|by eauto].
    simpl. apply Exists_cons in Hex as [Hnone|Hex]; [|by apply IH].
    unfold merge_step, readFileSync in Hstep. by rewrite Hnone in Hstep.
Qed.

(** C7, as the code has it.  A call whose list names a file that does
    not exist answers with a processing error and writes nothing.  An
    empty list is not refused: the loop does not run, the empty
    accumulated document goes to [save], which serialises one blank
    page, and the answer is the one that follows: when serialising and
    writing succeed the output file is written and the call reports
    success. *)
Theorem merge_missing_input (fs : FS) (pdfPaths : list string)
  (outputPath : string) :
  (Exists (fun path => fs !! resolve path = None) pdfPaths ->
   exists e, merge_pdfs fs pdfPaths outputPath = (fs, mergingText e))
  /\ merge_pdfs fs [] outputPath =
     match serialize [blankPage] with
     | Ok bytes =>
         writeThenAnswer fs outputPath bytes (mergedText [] outputPath)
                         mergingText
     | Throw e => (fs, mergingText e)
     end.
Proof.
  split; [|by rewrite merge_pdfs_unfold].
  intros [e He]%(merge_loop_missing _ _ []).
  exists e. by rewrite merge_pdfs_unfold, He.
Qed.

End DiskClaims.

(** ** The pages a removal keeps *)
Section RemoveFacts.
Context `{P : Platform}.

Lemma keepFrom_app (first : nat) (l1 l2 : PDFDocument) (ns : list number) :
  keepFrom first (l1 ++ l2) ns
  = keepFrom first l1 ns ++ keepFrom (first + length l1) l2 ns.
Proof.
  revert first. induction l1 as [|page l1 IH]; intros first; simpl.
  - by rewrite Nat.add_0_r.
  - rewrite IH. replace (S first + length l1) with (first + S (length l1)) by lia.
    by destruct (bool_decide _).
Qed.

Lemma keepFrom_ext (first : nat) (doc : PDFDocument) (ns1 ns2 : list number) :
  (forall j, first < j <= first + length doc ->
             (ofNat j ∈ ns1 <-> ofNat j ∈ ns2)) ->
  keepFrom first doc ns1 = keepFrom first doc ns2.
Proof.
  revert first. induction doc as [|page doc IH]; intros first Hext; simpl; [done|].
  rewrite (IH (S first)) by (intros j Hj; apply Hext; simpl; lia).
  assert (Hhd : ofNat (S first) ∈ ns1 <-> ofNat (S first) ∈ ns2)
    by (apply Hext; simpl; lia).
  by rewrite (bool_decide_ext (ofNat (S first) ∈ ns1) (ofNat (S first) ∈ ns2) Hhd).
Qed.

Lemma keepFrom_id (first : nat) (doc : PDFDocument) (ns : list number) :
  (forall j, first < j <= first + length doc -> ofNat j ∉ ns) ->
  keepFrom first doc ns = doc.
Proof.
  revert first. induction doc as [|page doc IH]; intros first Hno; simpl; [done|].
  rewrite bool_decide_eq_false_2 by (apply Hno; simpl; lia).
  f_equal. apply IH. intros j Hj. apply Hno. simpl. lia.
Qed.

(** The removal loop on a strictly descending list of page numbers of
    the document takes away the pages listed and no other. *)
Lemma removeAll_keeps (ns : list number) (doc : PDFDocument) :
  StronglySorted (flip Qcle) ns -> NoDup ns ->
  Forall (fun q => exists k : nat, q = ofNat k /\ 1 <= k <= length doc) ns ->
  removeAll doc ns = Ok (keepFrom 0 doc ns).
Proof.
  revert doc. induction ns as [|n ns IH]; intros doc Hs Hnd Hall.
  - unfold removeAll. simpl. f_equal. symmetry. apply keepFrom_id.
    intros j _ Hin. inversion Hin.
  - apply StronglySorted_inv in Hs as [Hs Hhd].
    apply NoDup_cons in Hnd as [Hnotin Hnd].
    apply Forall_cons in Hall as [(k & -> & Hk) Hall].
    destruct k as [|i]; [lia|].
    assert (Hsmall : forall q, q ∈ ns -> exists k', q = ofNat k' /\ 1 <= k' <= i).
    { rewrite Forall_forall in Hall, Hhd. intros q Hq.
      destruct (Hall q Hq) as (k' & -> & Hk'). exists k'. split; [done|].
      assert (k' <= S i) by (apply ofNat_le, (Hhd _ Hq)).
      assert (k' <> S i) by (intros ->; done). lia. }
    unfold removeAll. simpl. rewrite ofNat_pred.
    rewrite removePage_ofNat by lia. simpl.
    fold (removeAll (delete i doc) ns). rewrite IH; [|done|done|].
    2:{ rewrite Forall_forall. intros q Hq.
        destruct (Hsmall q Hq) as (k' & -> & Hk'). exists k'. split; [done|].
        rewrite length_delete by (apply lookup_lt_is_Some; lia). lia. }
    f_equal.
    destruct (lookup_lt_is_Some_2 doc i ltac:(lia)) as [page Hpage].
    rewrite delete_take_drop.
    rewrite <- (take_drop_middle doc i page Hpage) at 3.
    rewrite !keepFrom_app, !length_take_le by lia. simpl.
    rewrite bool_decide_eq_true_2 by left.
    f_equal.
    + apply keepFrom_ext. intros j Hj. rewrite length_take_le in Hj by lia.
      rewrite elem_of_cons. split; [auto|]. intros [Heq|?]; [|done].
      apply ofNat_inj in Heq. lia.
    + rewrite !keepFrom_id; [done| |].
      * intros j Hj [Heq|Hin]%elem_of_cons.
        -- apply ofNat_inj in Heq. lia.
        -- destruct (Hsmall _ Hin) as (k' & Heq & Hk').
           apply ofNat_inj in Heq. lia.
      * intros j Hj Hin. destruct (Hsmall _ Hin) as (k' & Heq & Hk').
        apply ofNat_inj in Heq. lia.
Qed.

End RemoveFacts.

(** ** Claims on [remove-pdf-pages] *)
Section RemoveClaims.
Context `{P : Platform}.

Local Instance descending_trans : Transitive (flip Qcle).
Proof. intros a b c Hab Hbc. unfold flip in *. by etrans. Qed.

Local Instance descending_antisymm : AntiSymm (=) (flip Qcle).
Proof. intros a b Hab Hba. unfold flip in *. by apply (anti_symm Qcle). Qed.

Local Instance descending_total : Total (flip Qcle).
Proof. intros a b. unfold flip. destruct (total Qcle a b); auto. Qed.

Lemma sortDescending_Permutation (ns : list number) : sortDescending ns ≡ₚ ns.
Proof. apply merge_sort_Permutation. Qed.

Lemma sortDescending_Sorted (ns : list number) :
  Sorted (flip Qcle) (sortDescending ns).
Proof. apply (Sorted_merge_sort _). Qed.

(** The sorted list depends on the numbers, not on their order. *)
Lemma sortDescending_perm (l1 l2 : list number) :
  l1 ≡ₚ l2 -> sortDescending l1 = sortDescending l2.
Proof.
  intros Hperm. apply (Sorted_unique (flip Qcle));
    [apply sortDescending_Sorted..|].
  by rewrite !sortDescending_Permutation.
Qed.

Lemma remove_dups_NoDup (ns : list number) : NoDup ns -> remove_dups ns = ns.
Proof.
  induction 1 as [|n ns Hn _ IH]; simpl; [done|].
  destruct (decide_rel _ n ns); [done|]. by rewrite IH.
Qed.

(** Validation lets through exactly the lists of numbers in range. *)
Lemma invalidPagesOf_nil (n : nat) (ns : list number) :
  invalidPagesOf n ns = [] <-> Forall (inRange n) ns.
Proof.
  unfold invalidPagesOf. rewrite Forall_forall. split.
  - intros Hnil q Hq. unfold inRange. rewrite !Qcle_ngt.
    split; intros Hlt; eapply (filter_nil_not_elem_of _ _ q Hnil); eauto.
  - intros Hall. apply elem_of_nil_inv. intros q [Hbad Hq]%list_elem_of_filter.
    destruct (Hall q Hq) as [H1 H2]. rewrite !Qcle_ngt in H1, H2. tauto.
Qed.

Lemma invalidPagesOf_cons_iff (n : nat) (ns : list number) :
  invalidPagesOf n ns <> []
  <-> Exists (fun q => (q < 1)%Qc \/ (ofNat n < q)%Qc) ns.
Proof.
  unfold invalidPagesOf. rewrite Exists_exists. split.
  - destruct (filter _ ns) as [|q l] eqn:Hf; [done|]. intros _.
    assert (Hq : q ∈ filter (fun num => (num < 1)%Qc \/ (ofNat n < num)%Qc) ns)
      by (rewrite Hf; left).
    apply list_elem_of_filter in Hq as [Hbad Hq]. eauto.
  - intros (q & Hq & Hbad) Hnil.
    by apply (filter_nil_not_elem_of _ _ q Hnil).
Qed.

(** The handler on a file that loads. *)
(** Integers within the bounds are page numbers of the document. *)
Lemma valid_integers_numbered (n : nat) (ns : list number) :
  Forall (inRange n) ns -> Forall (fun q => isInteger q = true) ns ->
  Forall (fun q => exists k : nat, q = ofNat k /\ 1 <= k <= n) ns.
Proof.
  rewrite !Forall_forall. intros Hvalid Hint q Hq.
  destruct (Hvalid q Hq) as [H1 Hn].
  destruct (proj1 (isInteger_spec q) (Hint q Hq)) as [z ->].
  exists (Z.to_nat z).
  assert (1 ≤ z)%Z by (apply Z2Qc_inj_le; by rewrite Z2Qc_inj_1).
  assert (Hz : Qc_of_Z z = ofNat (Z.to_nat z)) by (unfold ofNat; f_equal; lia).
  rewrite Hz in Hn |- *. apply ofNat_le in Hn. split; [done|lia].
Qed.

Lemma sortDescending_descending (l sorted : list number) :
  Sorted (flip Qcle) sorted -> sorted ≡ₚ l -> sortDescending l = sorted.
Proof.
  intros Hs Hperm. apply (Sorted_unique (flip Qcle));
    [apply sortDescending_Sorted|done|].
  by rewrite sortDescending_Permutation.
Qed.

(** A removal loop that comes to its end was given integers. *)
Lemma removeAll_Ok_integers (ns : list number) (doc doc' : PDFDocument) :
  removeAll doc ns = Ok doc' -> Forall (fun q => isInteger q = true) ns.
Proof.
  intros Hrm.
  destruct (Forall_Exists_dec (fun q => isInteger q = true)
              (fun q => isInteger q = false)
              (fun q => match isInteger q as b
                          return {b = true} + {b = false} with
                        | true => left eq_refl
                        | false => right eq_refl
                        end) ns) as [Hall|Hex]; [done|].
  destruct (removeAll_fraction ns doc Hex) as [e He]. congruence.
Qed.

(** The handler on a file that loads. *)
Lemma remove_pdf_pages_loaded (fs : FS) (pdfPath : string)
  (pageNumbers : list number) (content : list byte) (doc : PDFDocument) :
  fs !! resolve pdfPath = Some content -> parse content = Ok doc ->
  remove_pdf_pages fs pdfPath pageNumbers =
  match invalidPagesOf (length doc) pageNumbers with
  | [] =>
      match removeAll doc (sortDescending pageNumbers) with
      | Ok doc' =>
          match save doc' with
          | Ok bytes =>
              writeThenAnswer fs pdfPath bytes (removedText pageNumbers)
                              processingText
          | Throw e => (fs, processingText e)
          end
      | Throw e => (fs, processingText e)
      end
  | _ :: _ =>
      (fs, invalidText (invalidPagesOf (length doc) pageNumbers) (length doc))
  end.
Proof.
  intros Hfile Hparse.
  by rewrite remove_pdf_pages_unfold, (load_readFileSync _ _ _ Hfile), Hparse.
Qed.

(** The removal of distinct valid integers. *)
Lemma removeAll_otherPages (ns : list number) (doc : PDFDocument) :
  Forall (inRange (length doc)) ns ->
  Forall (fun q => isInteger q = true) ns ->
  NoDup ns ->
  removeAll doc (sortDescending ns) = Ok (otherPages doc ns)
  /\ length (otherPages doc ns) = length doc - length ns.
Proof.
  intros Hvalid Hint Hnd.
  assert (Hrm : removeAll doc (sortDescending ns) = Ok (otherPages doc ns)).
  { rewrite removeAll_keeps.
    - f_equal. apply keepFrom_ext. intros j _.
      by rewrite sortDescending_Permutation.
    - apply Sorted_StronglySorted; [apply _|apply sortDescending_Sorted].
    - by rewrite sortDescending_Permutation.
    - rewrite sortDescending_Permutation.
      by apply valid_integers_numbered. }
  split; [done|]. apply removeAll_length in Hrm.
  rewrite sortDescending_Permutation in Hrm. lia.
Qed.

(** C2, as the code has it.  On a list of valid page numbers without
    duplicates, a successful call writes the document made of the pages
    that are not listed: its page count is the original count less the
    number of distinct page numbers, as long as a page is left.  When
    the list names every page, [save] adds a blank page to the empty
    document and the file holds that one page.  When the numbers are
    integers the removal itself cannot fail, so the call is successful
    as soon as [save] and the write are. *)
Theorem remove_distinct_page_count (fs : FS) (pdfPath : string)
  (pageNumbers : list number) (content : list byte) (doc : PDFDocument) :
  fs !! resolve pdfPath = Some content -> parse content = Ok doc ->
  Forall (inRange (length doc)) pageNumbers ->
  NoDup pageNumbers ->
  (forall (fs' : FS) (text : string),
      remove_pdf_pages fs pdfPath pageNumbers = (fs', text) ->
      isSuccessText text = true ->
      exists (saved : PDFDocument) (bytes : list byte),
        saved = withDefaultPage (otherPages doc pageNumbers)
        /\ serialize saved = Ok bytes
        /\ fs' = <[resolve pdfPath := bytes]> fs
        /\ (length (remove_dups pageNumbers) < length doc ->
            saved = otherPages doc pageNumbers
            /\ length saved = length doc - length (remove_dups pageNumbers))
        /\ (length (remove_dups pageNumbers) = length doc ->
            saved = [blankPage]))
  /\ (Forall (fun q => isInteger q = true) pageNumbers ->
      exists doc' : PDFDocument,
        removeAll doc (sortDescending pageNumbers) = Ok doc'
        /\ length doc' = length doc - length (remove_dups pageNumbers)
        /\ remove_pdf_pages fs pdfPath pageNumbers =
           match save doc' with
           | Ok bytes =>
               writeThenAnswer fs pdfPath bytes (removedText pageNumbers)
                               processingText
           | Throw e => (fs, processingText e)
           end).
Proof.
  intros Hfile Hparse Hvalid Hnd.
  rewrite (remove_pdf_pages_loaded _ _ _ _ _ Hfile Hparse).
  rewrite (proj2 (invalidPagesOf_nil _ _) Hvalid).
  rewrite remove_dups_NoDup by done.
  split.
  - intros fs' text.
    destruct (removeAll doc _) as [doc'|e] eqn:Hrm; [|by intros [= <- <-]].
    pose proof (removeAll_Ok_integers _ _ _ Hrm) as Hint.
    rewrite sortDescending_Permutation in Hint.
    destruct (removeAll_otherPages pageNumbers doc Hvalid Hint Hnd)
      as [Hother Hlen].
    assert (doc' = otherPages doc pageNumbers) as -> by congruence.
    rewrite save_serialize.
    destruct (serialize _) as [bytes|e] eqn:Hs; [|by intros [= <- <-]].
    unfold writeThenAnswer.
    destruct (diskWrite pdfPath bytes); [|by intros [= <- <-]..].
    intros [= <- <-] _.
    exists (withDefaultPage (otherPages doc pageNumbers)), bytes.
    split_and!; [done..| |].
    + intros Hlt. rewrite withDefaultPage_pages; [done|].
      intros Hnil. rewrite Hnil in Hlen. simpl in Hlen. lia.
    + intros Heq.
      assert (otherPages doc pageNumbers = []) as ->
        by (apply nil_length_inv; lia).
      apply withDefaultPage_nil.
  - intros Hint.
    destruct (removeAll_otherPages pageNumbers doc Hvalid Hint Hnd)
      as [Hother Hlen].
    exists (otherPages doc pageNumbers). by rewrite Hother.
Qed.

(** C3, as the code has it.  When the list holds a number below 1 (so
    every number at or below 0, and also a fraction between 0 and 1) or
    above the page count, the call answers with the validation error
    that lists exactly these numbers, in the order given, and the true
    page count; the removal loop is not entered and the file store is
    the one the call started from. *)
Theorem invalid_page_numbers_rejected (fs : FS) (pdfPath : string)
  (pageNumbers : list number) (content : list byte) (doc : PDFDocument) :
  fs !! resolve pdfPath = Some content -> parse content = Ok doc ->
  Exists (fun q => (q < 1)%Qc \/ (ofNat (length doc) < q)%Qc) pageNumbers ->
  let invalidPages :=
    filter (fun q => (q < 1)%Qc \/ (ofNat (length doc) < q)%Qc) pageNumbers in
  remove_pdf_pages fs pdfPath pageNumbers
    = (fs, invalidText invalidPages (length doc))
  /\ invalidPages <> []
  /\ (forall q, q ∈ invalidPages <->
                q ∈ pageNumbers /\ ((q < 1)%Qc \/ (ofNat (length doc) < q)%Qc))
  /\ (remove_pdf_pages fs pdfPath pageNumbers).1 !! resolve pdfPath
     = Some content.
Proof.
  intros Hfile Hparse Hex invalidPages.
  apply invalidPagesOf_cons_iff in Hex.
  rewrite (remove_pdf_pages_loaded _ _ _ _ _ Hfile Hparse).
  fold invalidPages in Hex. unfold invalidPagesOf. fold invalidPages.
  destruct invalidPages as [|q l] eqn:Hinv; [done|].
  split_and!; [done|done| |done].
  intros q'. rewrite <- Hinv. unfold invalidPages.
  rewrite list_elem_of_filter. tauto.
Qed.

(** C8.  Two lists of valid page numbers that differ only in order are
    sorted into the same descending list, and the call returns the same
    store and the same answer for both. *)
Theorem removal_order_independent (fs : FS) (pdfPath : string)
  (l1 l2 : list number) (content : list byte) (doc : PDFDocument) :
  fs !! resolve pdfPath = Some content -> parse content = Ok doc ->
  Forall (inRange (length doc)) l1 ->
  l1 ≡ₚ l2 ->
  sortDescending l1 = sortDescending l2
  /\ Sorted (flip Qcle) (sortDescending l1)
  /\ sortDescending l1 ≡ₚ l1
  /\ remove_pdf_pages fs pdfPath l1 = remove_pdf_pages fs pdfPath l2.
Proof.
  intros Hfile Hparse Hvalid Hperm.
  assert (Hvalid2 : Forall (inRange (length doc)) l2) by by rewrite <- Hperm.
  split_and!; [by apply sortDescending_perm|apply sortDescending_Sorted
              |apply sortDescending_Permutation|].
  rewrite !(remove_pdf_pages_loaded _ _ _ _ _ Hfile Hparse).
  rewrite !(proj2 (invalidPagesOf_nil _ _)) by done.
  rewrite (sortDescending_perm l1 l2) by done.
  unfold removedText. by rewrite (Permutation_length Hperm).
Qed.

(** C10.  Validation looks at the bounds only.  A list of numbers all
    within [1 .. page count] has no invalid page, integers or not: the
    call never answers with the validation error, each number less one
    goes to [removePage], and a fraction among them ends the call with
    a processing error and the store untouched. *)
Theorem fraction_passes_validation (fs : FS) (pdfPath : string)
  (pageNumbers : list number) (content : list byte) (doc : PDFDocument) :
  fs !! resolve pdfPath = Some content -> parse content = Ok doc ->
  Forall (inRange (length doc)) pageNumbers ->
  invalidPagesOf (length doc) pageNumbers = []
  /\ remove_pdf_pages fs pdfPath pageNumbers =
     match forOf (fun doc pageNum => removePage doc (pageNum - 1)%Qc)
                 doc (sortDescending pageNumbers) with
     | Ok doc' =>
         match save doc' with
         | Ok bytes =>
             writeThenAnswer fs pdfPath bytes (removedText pageNumbers)
                             processingText
         | Throw e => (fs, processingText e)
         end
     | Throw e => (fs, processingText e)
     end
  /\ (Exists (fun q => isInteger q = false) pageNumbers ->
      exists e, remove_pdf_pages fs pdfPath pageNumbers = (fs, processingText e)).
Proof.
  intros Hfile Hparse Hvalid.
  rewrite (remove_pdf_pages_loaded _ _ _ _ _ Hfile Hparse).
  rewrite (proj2 (invalidPagesOf_nil _ _) Hvalid).
  split_and!; [done|done|].
  intros Hex. rewrite <- sortDescending_Permutation in Hex.
  destruct (removeAll_fraction _ doc Hex) as [e ->]. eauto.
Qed.

End RemoveClaims.

(** ** Claims on [merge-pdfs] *)
Section MergeClaims.
Context `{P : Platform}.

Lemma copyPages_from (before pages : list Page) :
  copyPages (before ++ pages) (seq (length before) (length pages)) = Ok pages.
Proof.
  revert before. induction pages as [|page pages IH]; intros before; [done|].
  unfold copyPages in *. simpl.
  rewrite list_lookup_middle by done. simpl.
  specialize (IH (before ++ [page])).
  rewrite <- app_assoc, length_app in IH. simpl in IH.
  rewrite Nat.add_1_r in IH. by rewrite IH.
Qed.

(** Copying the pages at all the indices of a document gives its pages,
    in their order. *)
Lemma copyPages_all (pdf : PDFDocument) :
  copyPages pdf (getPageIndices pdf) = Ok pdf.
Proof. apply (copyPages_from [] pdf). Qed.

Lemma forEach_addPage (mergedPdf : PDFDocument) (copiedPages : list Page) :
  foldl addPage mergedPdf copiedPages = mergedPdf ++ copiedPages.
Proof.
  revert mergedPdf.
  induction copiedPages as [|page pages IH]; intros mergedPdf; simpl.
  - by rewrite app_nil_r.
  - rewrite IH. unfold addPage. by rewrite <- app_assoc.
Qed.

Lemma merge_step_loaded (fs : FS) (mergedPdf pdf : PDFDocument) (pdfPath : string) :
  loadsAs fs pdfPath pdf ->
  merge_step fs mergedPdf pdfPath = Ok (mergedPdf ++ pdf).
Proof.
  intros (content & Hfile & Hparse).
  unfold merge_step, readFileSync, load. rewrite Hfile. simpl.
  rewrite Base64Facts.decode_encode, Hparse. simpl.
  rewrite copyPages_all. simpl. by rewrite forEach_addPage.
Qed.

Lemma merge_loop_loaded (fs : FS) (pdfPaths : list string)
  (docs : list PDFDocument) (mergedPdf : PDFDocument) :
  Forall2 (loadsAs fs) pdfPaths docs ->
  forOf (merge_step fs) mergedPdf pdfPaths = Ok (mergedPdf ++ concat docs).
Proof.
  intros Hall. revert mergedPdf.
  induction Hall as [|pdfPath pdf pdfPaths docs Hload _ IH]; intros mergedPdf.
  - simpl. by rewrite app_nil_r.
  - simpl. rewrite (merge_step_loaded _ _ pdf) by done. simpl.
    rewrite IH. by rewrite <- app_assoc.
Qed.

(** C4, as the code has it.  When every input path loads, the loop of
    [merge-pdfs] accumulates the concatenation of the input documents
    in the order of the list, each with its pages in their own order,
    and the document written to the output path is this concatenation
    as long as it holds a page; for two documents with a page between
    them it is the pages of the first followed by the pages of the
    second, and has as many pages as both.  When the concatenation
    holds no page (no input, or inputs without pages), [save] writes
    one blank page. *)
Theorem merge_concatenates (fs : FS) (pdfPaths : list string)
  (docs : list PDFDocument) (outputPath : string) :
  Forall2 (loadsAs fs) pdfPaths docs ->
  let written := withDefaultPage (concat docs) in
  forOf (merge_step fs) [] pdfPaths = Ok (concat docs)
  /\ merge_pdfs fs pdfPaths outputPath =
     match serialize written with
     | Ok bytes =>
         writeThenAnswer fs outputPath bytes (mergedText pdfPaths outputPath)
                         mergingText
     | Throw e => (fs, mergingText e)
     end
  /\ (concat docs <> [] -> written = concat docs)
  /\ (concat docs = [] -> written = [blankPage])
  /\ length (concat docs) = sum_list (length <$> docs)
  /\ (forall A B : PDFDocument,
        docs = [A; B] ->
        concat docs = A ++ B
        /\ length (concat docs) = length A + length B
        /\ (0 < length A + length B ->
            written = A ++ B /\ length written = length A + length B)).
Proof.
  intros Hall written.
  pose proof (merge_loop_loaded fs pdfPaths docs [] Hall) as Hloop.
  simpl in Hloop. split_and!.
  - done.
  - by rewrite merge_pdfs_unfold, Hloop.
  - apply withDefaultPage_pages.
  - intros Hnil. unfold written. rewrite Hnil. apply withDefaultPage_nil.
  - clear Hall Hloop written. induction docs as [|d docs IH]; simpl; [done|].
    rewrite length_app. by f_equal.
  - intros A B ->. unfold written. simpl. rewrite app_nil_r.
    split_and!; [done|by rewrite length_app|].
    intros Hpos. rewrite withDefaultPage_pages.
    + split; [done|by rewrite length_app].
    + intros Hnil. apply (f_equal length) in Hnil.
      rewrite length_app in Hnil. simpl in Hnil. lia.
Qed.

End MergeClaims.

(** ** Claims on [add-text-watermark] *)
Section WatermarkClaims.
Context `{P : Platform}.

Lemma add_text_watermark_loaded (fs : FS) (watermarkText pdfPath : string)
  (position : Position) (content : list byte) (doc : PDFDocument) :
  fs !! resolve pdfPath = Some content -> parse content = Ok doc ->
  add_text_watermark fs watermarkText pdfPath position =
  match mapM (fun page =>
                let '(width, height) := getSize page in
                drawText page watermarkText
                         (watermarkOptions position width height)) doc with
  | Ok pages' =>
      match save pages' with
      | Ok bytes =>
          writeThenAnswer fs pdfPath bytes watermarkedText processingText
      | Throw e => (fs, processingText e)
      end
  | Throw e => (fs, processingText e)
  end.
Proof.
  intros Hfile Hparse.
  by rewrite add_text_watermark_unfold, (load_readFileSync _ _ _ Hfile), Hparse.
Qed.

(** C9, as the code has it.  Every page of the document gets the text
    drawn at size 50 at an anchor computed from the size of that page:
    horizontally centred positions lie 150 left of the middle of the
    page, left corners at the padding 50 from the left edge, right
    corners 300 (twice 150, the assumed width of the text) from the
    right edge; the top row lies the padding 50 below the top edge, the
    bottom row at padding plus text size, 100, above the bottom edge,
    and [center] at half the height. *)
Theorem watermark_anchor (fs : FS) (watermarkText pdfPath : string)
  (position : Position) (content : list byte) (doc : PDFDocument) :
  fs !! resolve pdfPath = Some content -> parse content = Ok doc ->
  add_text_watermark fs watermarkText pdfPath position =
    match mapM (fun page =>
                  let '(width, height) := getSize page in
                  drawText page watermarkText
                           (watermarkOptions position width height)) doc with
    | Ok pages' =>
        match save pages' with
        | Ok bytes =>
            writeThenAnswer fs pdfPath bytes watermarkedText processingText
        | Throw e => (fs, processingText e)
        end
    | Throw e => (fs, processingText e)
    end
  /\ forall width height : number,
       let options := watermarkOptions position width height in
       let x := Options.x options in
       let y := Options.y options in
       Options.size options = num 50 /\ textSize = num 50 /\ padding = num 50
       /\ (x, y) = anchor position width height
       /\ match position with
          | center | top | bottom => (x + num 150 = width / num 2)%Qc
          | topLeft | bottomLeft => x = padding
          | topRight | bottomRight =>
              (width - x = num 300)%Qc /\ (num 300 = num 2 * num 150)%Qc
          end
       /\ match position with
          | center => (y = height / num 2)%Qc
          | top | topLeft | topRight => (height - y = padding)%Qc
          | bottom | bottomLeft | bottomRight => (y = padding + textSize)%Qc
          end.
Proof.
  intros Hfile Hparse. split; [by apply (add_text_watermark_loaded _ _ _ _ content)|].
  intros width height.
  destruct position; simpl; split_and!; try reflexivity; try ring.
  all: unfold num; rewrite <- Z2Qc_inj_mul; reflexivity.
Qed.

End WatermarkClaims.

(** ** The handlers at work on the small platform *)

Lemma disk_a : Mini.disk !! @resolve Mini.platform "a.pdf" = Some Mini.docA.
Proof. vm_compute. reflexivity. Qed.

Lemma disk_b : Mini.disk !! @resolve Mini.platform "b.pdf" = Some Mini.docB.
Proof. vm_compute. reflexivity. Qed.

Lemma parse_a : @parse Mini.platform Mini.docA = Ok Mini.pagesA.
Proof. reflexivity. Qed.

Lemma parse_b : @parse Mini.platform Mini.docB = Ok Mini.pagesB.
Proof. reflexivity. Qed.

Ltac by_computation := apply (bool_decide_unpack _); vm_compute; exact I.

Lemma disk_holds_raw_pdf_bytes_witness :
  let c := RemovePdfPages "a.pdf" [num 3; num 1] in
  let fs' := <["a.pdf"%string := ["%"; "2"; "2"; x00]%byte]> Mini.disk in
  let text := "Successfully removed 2 pages from the PDF."%string in
  @run Mini.platform Mini.disk c = (fs', text)
  /\ isSuccessText text = true
  /\ exists doc bytes,
       @serialize Mini.platform doc = Ok bytes
       /\ fs' !! "a.pdf"%string = Some bytes.
Proof.
  intros c fs' text.
  assert (H1 : @run Mini.platform Mini.disk c = (fs', text))
    by (vm_compute; reflexivity).
  assert (H2 : isSuccessText text = true) by reflexivity.
  split; [exact H1|split; [exact H2|]].
  destruct (@disk_holds_raw_pdf_bytes Mini.platform Mini.disk fs' c text H1 H2)
    as [(doc & bytes & Hs & _ & Hl & _) _].
  exists doc, bytes. split; [exact Hs|exact Hl].
Defined.

(** The file written by a successful call is the serialised document
    itself; the base64 text of these bytes is something else. *)
Lemma base64_on_disk_counterexample :
  let r := @remove_pdf_pages Mini.platform Mini.disk "a.pdf" [num 3; num 1] in
  r.2 = "Successfully removed 2 pages from the PDF."%string
  /\ @serialize Mini.platform [("2", "2", x00)%byte]
     = Ok ["%"; "2"; "2"; x00]%byte
  /\ r.1 !! "a.pdf"%string = Some ["%"; "2"; "2"; x00]%byte
  /\ Base64.encode ["%"; "2"; "2"; x00]%byte = "JTIyAA=="%string
  /\ r.1 !! "a.pdf"%string
     <> Some (list_byte_of_string (Base64.encode ["%"; "2"; "2"; x00]%byte))
  /\ @readFileSync Mini.platform Mini.disk "a.pdf"
     = Ok (Base64.encode Mini.docA).
Proof.
  split_and!; try (vm_compute; reflexivity).
  vm_compute. intros [=].
Qed.

(** Another spelling of a path reads the same file. *)
Lemma read_other_spelling :
  @readFileSync Mini.platform Mini.disk "./a.pdf"
  = @readFileSync Mini.platform Mini.disk "a.pdf".
Proof. vm_compute. reflexivity. Qed.

(** A merge into a directory that does not exist: the inputs load, the
    merged document is serialised, the file cannot be opened, and the
    call answers with the error of the write; the store is as it was. *)
Lemma merge_into_missing_directory :
  @merge_pdfs Mini.platform Mini.disk ["a.pdf"; "b.pdf"]%string "nodir/out.pdf"
  = (Mini.disk,
     "Error merging PDFs: ENOENT: no such file or directory, open 'nodir/out.pdf'"%string).
Proof. vm_compute. reflexivity. Qed.

(** A watermark on a volume with no space left: the file loads, the
    text is drawn, the document is serialised, and the write fails
    after the file was opened.  The answer is an error text, the file
    is left empty, and its copy elsewhere is as it was. *)
Lemma failure_before_write_leaves_disk_untouched_witness :
  let c := AddTextWatermark "draft" "full/a.pdf" center in
  let fs' := <["full/a.pdf"%string := []]> Mini.fullDisk in
  let text :=
    "Error processing PDF: ENOSPC: no space left on device, write"%string in
  @run Mini.platform Mini.fullDisk c = (fs', text)
  /\ isErrorText text = true
  /\ (exists (doc : list Mini.MiniPage) (bytes : list byte) (e : exn)
        (written : nat),
        @serialize Mini.platform doc = Ok bytes
        /\ Mini.diskWrite "full/a.pdf" bytes = Interrupted e written
        /\ fs' = <["full/a.pdf"%string := take written bytes]> Mini.fullDisk)
  /\ fs' !! "a.pdf"%string = Some Mini.docA.
Proof.
  intros c fs' text.
  assert (H1 : @run Mini.platform Mini.fullDisk c = (fs', text))
    by (vm_compute; reflexivity).
  assert (H2 : isErrorText text = true) by reflexivity.
  split; [exact H1|split; [exact H2|]].
  destruct (@failure_before_write_leaves_disk_untouched
              Mini.platform _ _ c text H1 H2) as (Hstore & Hframe & _).
  split.
  - destruct Hstore as [Hsame|Hbroken]; [|exact Hbroken].
    apply (f_equal (fun fs => fs !! "full/a.pdf"%string)) in Hsame.
    vm_compute in Hsame. discriminate Hsame.
  - rewrite (Hframe "a.pdf"%string) by discriminate.
    vm_compute. reflexivity.
Defined.

(** A write that fails after the file was opened: the call answers with
    an error text and the file it was to replace has lost its content. *)
Lemma interrupted_write_counterexample :
  let c := RemovePdfPages "full/a.pdf" [num 1] in
  let r := @run Mini.platform Mini.fullDisk c in
  r.2 = "Error processing PDF: ENOSPC: no space left on device, write"%string
  /\ isErrorText r.2 = true
  /\ Mini.fullDisk !! "full/a.pdf"%string = Some Mini.docA
  /\ r.1 !! "full/a.pdf"%string = Some []
  /\ r.1 !! "full/a.pdf"%string <> Mini.fullDisk !! "full/a.pdf"%string.
Proof.
  split_and!; try (vm_compute; reflexivity).
  vm_compute. intros [=].
Qed.

Lemma remove_distinct_page_count_witness :
  let pageNumbers := [num 3; num 1] in
  let fs' := <["a.pdf"%string := ["%"; "2"; "2"; x00]%byte]> Mini.disk in
  let text := "Successfully removed 2 pages from the PDF."%string in
  Forall (inRange (length Mini.pagesA)) pageNumbers
  /\ NoDup pageNumbers
  /\ @remove_pdf_pages Mini.platform Mini.disk "a.pdf" pageNumbers = (fs', text)
  /\ isSuccessText text = true
  /\ exists (saved : list Mini.MiniPage) (bytes : list byte),
       saved = @otherPages Mini.platform Mini.pagesA pageNumbers
       /\ length saved = 3 - length (remove_dups pageNumbers)
       /\ @serialize Mini.platform saved = Ok bytes
       /\ fs' = <["a.pdf"%string := bytes]> Mini.disk.
Proof.
  intros pageNumbers fs' text.
  assert (H1 : Forall (inRange (length Mini.pagesA)) pageNumbers).
  { repeat constructor; by_computation. }
  assert (H2 : NoDup pageNumbers) by by_computation.
  assert (H3 : @remove_pdf_pages Mini.platform Mini.disk "a.pdf" pageNumbers
               = (fs', text)) by (vm_compute; reflexivity).
  assert (H4 : isSuccessText text = true) by reflexivity.
  split_and!; [exact H1|exact H2|exact H3|exact H4|].
  destruct (@remove_distinct_page_count Mini.platform Mini.disk "a.pdf"
              pageNumbers Mini.docA Mini.pagesA disk_a parse_a H1 H2)
    as [Hsucc _].
  destruct (Hsucc fs' text H3 H4) as (saved & bytes & _ & Hs & Hfs & Hlt & _).
  assert (H5 : length (remove_dups pageNumbers) < length Mini.pagesA)
    by (vm_compute; lia).
  destruct (Hlt H5) as [Hsaved Hlen].
  exists saved, bytes. split_and!; [exact Hsaved|exact Hlen|exact Hs|exact Hfs].
Defined.

(** A list that names every page: the call succeeds, and the file holds
    one blank page, not a document without pages. *)
Lemma remove_every_page_counterexample :
  let pageNumbers := [num 1; num 2; num 3] in
  let r := @remove_pdf_pages Mini.platform Mini.disk "a.pdf" pageNumbers in
  Forall (inRange (length Mini.pagesA)) pageNumbers
  /\ NoDup pageNumbers
  /\ r.2 = "Successfully removed 3 pages from the PDF."%string
  /\ isSuccessText r.2 = true
  /\ r.1 !! "a.pdf"%string = Some ["%"; x3c; x54; x00]%byte
  /\ @parse Mini.platform ["%"; x3c; x54; x00]%byte = Ok [Mini.blankPage]
  /\ length (remove_dups pageNumbers) = 3
  /\ length [Mini.blankPage]
     <> length Mini.pagesA - length (remove_dups pageNumbers).
Proof.
  split_and!; try (vm_compute; reflexivity).
  - repeat constructor; by_computation.
  - by_computation.
  - vm_compute. lia.
Qed.

(** The loop runs once for every element of the list, so a number given
    twice takes two pages away: its own and the one that moved into its
    place, which the list did not name. *)
Lemma duplicate_page_numbers_removed_twice :
  let pageNumbers := [num 2; num 2] in
  let r := @remove_pdf_pages Mini.platform Mini.disk "a.pdf" pageNumbers in
  Forall (inRange (length Mini.pagesA)) pageNumbers
  /\ isSuccessText r.2 = true
  /\ r.1 !! "a.pdf"%string = Some ["%"; "1"; "1"; x00]%byte
  /\ @parse Mini.platform ["%"; "1"; "1"; x00]%byte = Ok [("1", "1", x00)%byte]
  /\ length (remove_dups pageNumbers) = 1
  /\ length [("1", "1", x00)%byte]
     <> length Mini.pagesA - length (remove_dups pageNumbers).
Proof.
  split_and!; try (vm_compute; reflexivity).
  - repeat constructor; by_computation.
  - vm_compute. lia.
Qed.

Lemma invalid_page_numbers_rejected_witness :
  let pageNumbers := [num 0; num 4; num 2] in
  Exists (fun q => (q < 1)%Qc \/ (ofNat (length Mini.pagesA) < q)%Qc) pageNumbers
  /\ @remove_pdf_pages Mini.platform Mini.disk "a.pdf" pageNumbers
     = (Mini.disk,
        "Error: Invalid page numbers: 0, 4. The document has 3 pages."%string).
Proof.
  intros pageNumbers.
  assert (H1 : Exists (fun q => (q < 1)%Qc \/ (ofNat (length Mini.pagesA) < q)%Qc)
                      pageNumbers).
  { apply Exists_cons_hd. left. by_computation. }
  split; [exact H1|].
  destruct (@invalid_page_numbers_rejected Mini.platform Mini.disk "a.pdf"
              pageNumbers Mini.docA Mini.pagesA disk_a parse_a H1) as [Heq _].
  rewrite Heq. vm_compute. reflexivity.
Defined.

(** One half is no number at or below 0 and none above the page count,
    and the validation error names it all the same. *)
Lemma fraction_below_one_counterexample :
  let pageNumbers := [num 0; Q2Qc (1 # 2)] in
  @remove_pdf_pages Mini.platform Mini.disk "a.pdf" pageNumbers
  = (Mini.disk, @invalidText Mini.platform [num 0; Q2Qc (1 # 2)] 3)
  /\ @invalidText Mini.platform [num 0; Q2Qc (1 # 2)] 3
     = "Error: Invalid page numbers: 0, 1/2. The document has 3 pages."%string
  /\ filter (fun q => (q ≤ 0)%Qc \/ (ofNat 3 < q)%Qc) pageNumbers = [num 0]
  /\ @invalidText Mini.platform [num 0] 3
     = "Error: Invalid page numbers: 0. The document has 3 pages."%string.
Proof.
  split_and!; vm_compute; reflexivity.
Qed.

Lemma removal_order_independent_witness :
  let l1 := [num 3; num 1] in
  let l2 := [num 1; num 3] in
  Forall (inRange (length Mini.pagesA)) l1
  /\ l1 ≡ₚ l2
  /\ @remove_pdf_pages Mini.platform Mini.disk "a.pdf" l1
     = @remove_pdf_pages Mini.platform Mini.disk "a.pdf" l2.
Proof.
  intros l1 l2.
  assert (H1 : Forall (inRange (length Mini.pagesA)) l1).
  { repeat constructor; by_computation. }
  assert (H2 : l1 ≡ₚ l2) by apply perm_swap.
  split_and!; [exact H1|exact H2|].
  exact (proj2 (proj2 (proj2
    (@removal_order_independent Mini.platform Mini.disk "a.pdf" l1 l2
       Mini.docA Mini.pagesA disk_a parse_a H1 H2)))).
Defined.

Lemma fraction_passes_validation_witness :
  let pageNumbers := [Q2Qc (3 # 2)] in
  Forall (inRange (length Mini.pagesA)) pageNumbers
  /\ Exists (fun q => isInteger q = false) pageNumbers
  /\ invalidPagesOf (length Mini.pagesA) pageNumbers = []
  /\ exists e,
       @remove_pdf_pages Mini.platform Mini.disk "a.pdf" pageNumbers
       = (Mini.disk, @processingText Mini.platform e).
Proof.
  intros pageNumbers.
  assert (H1 : Forall (inRange (length Mini.pagesA)) pageNumbers).
  { repeat constructor; by_computation. }
  assert (H2 : Exists (fun q => isInteger q = false) pageNumbers).
  { apply Exists_cons_hd. reflexivity. }
  destruct (@fraction_passes_validation Mini.platform Mini.disk "a.pdf"
              pageNumbers Mini.docA Mini.pagesA disk_a parse_a H1)
    as (Hnil & _ & Hfrac).
  split_and!; [exact H1|exact H2|exact Hnil|exact (Hfrac H2)].
Defined.

Lemma merge_concatenates_witness :
  Forall2 (@loadsAs Mini.platform Mini.disk) ["a.pdf"; "b.pdf"]%string
          [Mini.pagesA; Mini.pagesB]
  /\ forOf (@merge_step Mini.platform Mini.disk) [] ["a.pdf"; "b.pdf"]%string
     = Ok (Mini.pagesA ++ Mini.pagesB)
  /\ @withDefaultPage Mini.platform (concat [Mini.pagesA; Mini.pagesB])
     = Mini.pagesA ++ Mini.pagesB
  /\ length (@withDefaultPage Mini.platform (concat [Mini.pagesA; Mini.pagesB]))
     = length Mini.pagesA + length Mini.pagesB.
Proof.
  assert (H1 : Forall2 (@loadsAs Mini.platform Mini.disk)
                 ["a.pdf"; "b.pdf"]%string [Mini.pagesA; Mini.pagesB]).
  { repeat constructor.
    - exists Mini.docA. split; [exact disk_a|exact parse_a].
    - exists Mini.docB. split; [exact disk_b|exact parse_b]. }
  split; [exact H1|].
  destruct (@merge_concatenates Mini.platform Mini.disk _ _ "out.pdf" H1)
    as (Hloop & _ & _ & _ & _ & Htwo).
  split; [exact Hloop|].
  destruct (Htwo Mini.pagesA Mini.pagesB eq_refl) as (_ & _ & Hwritten).
  assert (H2 : 0 < length Mini.pagesA + length Mini.pagesB)
    by (vm_compute; lia).
  exact (Hwritten H2).
Defined.

(** Two inputs without pages: the merged document has no page, and the
    output file holds one blank page. *)
Lemma merge_pageless_inputs_counterexample :
  let pdfPaths := ["e.pdf"; "e.pdf"]%string in
  let r := @merge_pdfs Mini.platform Mini.emptyDisk pdfPaths "out.pdf" in
  Forall2 (@loadsAs Mini.platform Mini.emptyDisk) pdfPaths [[]; []]
  /\ r.2 = "Successfully merged 2 PDFs into out.pdf"%string
  /\ r.1 !! "out.pdf"%string = Some ["%"; x3c; x54; x00]%byte
  /\ @parse Mini.platform ["%"; x3c; x54; x00]%byte = Ok [Mini.blankPage]
  /\ [Mini.blankPage] <> concat [[]; []]
  /\ length [Mini.blankPage] <> 0 + 0.
Proof.
  split_and!; try (vm_compute; reflexivity).
  - repeat constructor; exists ["%"%byte]; split; vm_compute; reflexivity.
  - discriminate.
  - simpl. lia.
Qed.

Lemma merge_writes_output_path_only_witness :
  "b.pdf"%string <> @resolve Mini.platform "./a.pdf"
  /\ (@merge_pdfs Mini.platform Mini.disk ["a.pdf"; "b.pdf"]%string "./a.pdf").1
       !! "b.pdf"%string
     = Mini.disk !! "b.pdf"%string.
Proof.
  assert (H1 : "b.pdf"%string <> @resolve Mini.platform "./a.pdf")
    by discriminate.
  split; [exact H1|].
  exact (proj1 (@merge_writes_output_path_only Mini.platform Mini.disk
                  ["a.pdf"; "b.pdf"]%string "./a.pdf" "b.pdf" H1)).
Defined.

(** An output path that denotes an input file, under the same spelling
    or under another: the input is replaced. *)
Lemma merge_overwrites_input_counterexample :
  let pdfPaths := ["a.pdf"; "b.pdf"]%string in
  let merged :=
    ["%"; "1"; "1"; x00; "2"; "2"; x00; "3"; "3"; x00;
     "4"; "4"; x00; "5"; "5"; x00]%byte in
  let r := @merge_pdfs Mini.platform Mini.disk pdfPaths "a.pdf" in
  let r' := @merge_pdfs Mini.platform Mini.disk pdfPaths "./a.pdf" in
  "a.pdf"%string ∈ pdfPaths
  /\ Mini.disk !! "a.pdf"%string = Some Mini.docA
  /\ r.2 = "Successfully merged 2 PDFs into a.pdf"%string
  /\ r.1 !! "a.pdf"%string = Some merged
  /\ r.1 !! "a.pdf"%string <> Mini.disk !! "a.pdf"%string
  /\ ("./a.pdf"%string ∉ pdfPaths)
  /\ r'.2 = "Successfully merged 2 PDFs into ./a.pdf"%string
  /\ r'.1 !! "a.pdf"%string = Some merged
  /\ r'.1 !! "a.pdf"%string <> Mini.disk !! "a.pdf"%string.
Proof.
  split_and!; try (vm_compute; reflexivity).
  - apply list_elem_of_here.
  - vm_compute. intros [=].
  - intros Hin. apply elem_of_cons in Hin as [Heq|Hin]; [discriminate Heq|].
    apply elem_of_cons in Hin as [Heq|Hin]; [discriminate Heq|].
    by apply elem_of_nil in Hin.
  - vm_compute. intros [=].
Qed.

Lemma merge_missing_input_witness :
  let pdfPaths := ["a.pdf"; "missing.pdf"]%string in
  Exists (fun path => Mini.disk !! @resolve Mini.platform path = None) pdfPaths
  /\ exists e,
       @merge_pdfs Mini.platform Mini.disk pdfPaths "out.pdf"
       = (Mini.disk, @mergingText Mini.platform e).
Proof.
  intros pdfPaths.
  assert (H1 : Exists (fun path => Mini.disk !! @resolve Mini.platform path = None)
                      pdfPaths).
  { apply Exists_cons_tl, Exists_cons_hd. vm_compute. reflexivity. }
  split; [exact H1|].
  exact (proj1 (@merge_missing_input Mini.platform Mini.disk pdfPaths "out.pdf")
               H1).
Defined.

(** No input at all: the call succeeds and creates the output file. *)
Lemma merge_empty_list_counterexample :
  let r := @merge_pdfs Mini.platform Mini.disk [] "out.pdf" in
  r.2 = "Successfully merged 0 PDFs into out.pdf"%string
  /\ isErrorText r.2 = false
  /\ Mini.disk !! "out.pdf"%string = None
  /\ r.1 !! "out.pdf"%string = Some ["%"; x3c; x54; x00]%byte.
Proof.
  split_and!; vm_compute; reflexivity.
Qed.

(** The bottom row and the right corners are not at the padding from
    their page edge. *)
Lemma anchor_offset_counterexample :
  let width := num 600 in
  let height := num 800 in
  (anchor bottom width height).2 = num 100
  /\ num 100 <> padding
  /\ (width - (anchor topRight width height).1)%Qc = num 300
  /\ num 300 <> padding.
Proof.
  split_and!.
  - apply Qc_is_canon. reflexivity.
  - unfold padding, num. intros H%Z2Qc_inj. lia.
  - apply Qc_is_canon. reflexivity.
  - unfold padding, num. intros H%Z2Qc_inj. lia.
Qed.

Lemma watermark_anchor_witness :
  Mini.disk !! @resolve Mini.platform "b.pdf" = Some Mini.docB
  /\ @parse Mini.platform Mini.docB = Ok Mini.pagesB
  /\ (Options.y (watermarkOptions bottom (num 52) (num 52))
      = padding + textSize)%Qc
  /\ @add_text_watermark Mini.platform Mini.disk "draft" "b.pdf" bottom
     = (<["b.pdf"%string := ["%"; "4"; "4"; x01; "5"; "5"; x01]%byte]> Mini.disk,
        "Successfully added text watermark to the PDF."%string).
Proof.
  destruct (@watermark_anchor Mini.platform Mini.disk "draft" "b.pdf" bottom
              Mini.docB Mini.pagesB disk_b parse_b) as [Hrun Hanchor].
  split_and!; [exact disk_b|exact parse_b| |].
  - exact (proj2 (proj2 (proj2 (proj2 (proj2 (Hanchor (num 52) (num 52))))))).
  - rewrite Hrun. vm_compute. reflexivity.
Defined.

(** ** Further properties of [remove-pdf-pages] *)
Section RemoveExtras.
Context `{P : Platform}.

(** X1.  On a list of distinct valid integer page numbers the document
    handed to [save] holds exactly the pages whose number is not in the
    list, in their original order. *)
Theorem remove_keeps_other_pages (fs : FS) (pdfPath : string)
  (pageNumbers : list number) (content : list byte) (doc : PDFDocument) :
  fs !! resolve pdfPath = Some content -> parse content = Ok doc ->
  Forall (inRange (length doc)) pageNumbers ->
  Forall (fun q => isInteger q = true) pageNumbers ->
  NoDup pageNumbers ->
  removeAll doc (sortDescending pageNumbers) = Ok (otherPages doc pageNumbers)
  /\ remove_pdf_pages fs pdfPath pageNumbers =
     match save (otherPages doc pageNumbers) with
     | Ok bytes =>
         writeThenAnswer fs pdfPath bytes (removedText pageNumbers)
                         processingText
     | Throw e => (fs, processingText e)
     end.
Proof.
  intros Hfile Hparse Hvalid Hint Hnd.
  destruct (removeAll_otherPages pageNumbers doc Hvalid Hint Hnd) as [Hrm _].
  split; [done|].
  rewrite (remove_pdf_pages_loaded _ _ _ _ _ Hfile Hparse).
  by rewrite (proj2 (invalidPagesOf_nil _ _) Hvalid), Hrm.
Qed.

(** X3.  A list with more numbers than the document has pages never
    succeeds: the call answers with an error text and writes nothing. *)
Theorem remove_more_numbers_than_pages (fs : FS) (pdfPath : string)
  (pageNumbers : list number) (content : list byte) (doc : PDFDocument) :
  fs !! resolve pdfPath = Some content -> parse content = Ok doc ->
  length doc < length pageNumbers ->
  isErrorText (remove_pdf_pages fs pdfPath pageNumbers).2 = true
  /\ (remove_pdf_pages fs pdfPath pageNumbers).1 = fs.
Proof.
  intros Hfile Hparse Hlen.
  rewrite (remove_pdf_pages_loaded _ _ _ _ _ Hfile Hparse).
  destruct (invalidPagesOf _ _); [|done].
  destruct (removeAll doc _) as [doc'|e] eqn:Hrm; [|done].
  apply removeAll_length in Hrm.
  rewrite sortDescending_Permutation in Hrm. lia.
Qed.

(** X4.  An empty list is accepted: nothing is removed, the document
    as loaded goes to [save], and the file is replaced by what [save]
    returns. *)
Theorem remove_empty_list (fs : FS) (pdfPath : string)
  (content : list byte) (doc : PDFDocument) :
  fs !! resolve pdfPath = Some content -> parse content = Ok doc ->
  remove_pdf_pages fs pdfPath [] =
  match save doc with
  | Ok bytes => writeThenAnswer fs pdfPath bytes (removedText []) processingText
  | Throw e => (fs, processingText e)
  end.
Proof.
  intros Hfile Hparse.
  by rewrite (remove_pdf_pages_loaded _ _ _ _ _ Hfile Hparse).
Qed.

(** X5.  On a document without pages every number is out of range: a
    list that is not empty is answered with the validation error naming
    all its numbers. *)
Theorem remove_from_pageless_document (fs : FS) (pdfPath : string)
  (pageNumbers : list number) (content : list byte) :
  fs !! resolve pdfPath = Some content -> parse content = Ok [] ->
  pageNumbers <> [] ->
  remove_pdf_pages fs pdfPath pageNumbers = (fs, invalidText pageNumbers 0).
Proof.
  intros Hfile Hparse Hne.
  rewrite (remove_pdf_pages_loaded _ _ _ _ _ Hfile Hparse). simpl.
  assert (Hall : invalidPagesOf 0 pageNumbers = pageNumbers).
  { unfold invalidPagesOf. clear. induction pageNumbers as [|q ns IH]; [done|].
    rewrite filter_cons_True, IH; [done|].
    destruct (decide (q < 1)%Qc) as [|Hge]; [by left|right].
    apply Qcnot_lt_le in Hge.
    eapply Qclt_le_trans; [|exact Hge]. by_computation. }
  rewrite Hall. by destruct pageNumbers.
Qed.

End RemoveExtras.

(** ** Further properties of the tool surface *)
Section DispatchExtras.
Context `{P : Platform}.

Lemma run_missing_file (fs : FS) (c : Call) :
  inPlace c = true -> fs !! resolve (destination c) = None ->
  run fs c = (fs, processingText (ENOENT (destination c))).
Proof.
  intros Hc Hnone. destruct c; try done; simpl in *.
  - unfold remove_pdf_pages, remove_pdf_pages_try, readFileSync.
    by rewrite Hnone.
  - unfold add_text_watermark_ts, add_text_watermark_ts_try, readFileSync.
    by rewrite Hnone.
  - unfold add_text_watermark, add_text_watermark_try, readFileSync.
    by rewrite Hnone.
Qed.

Lemma run_unreadable_file (fs : FS) (c : Call) (content : list byte) (e : exn) :
  inPlace c = true ->
  fs !! resolve (destination c) = Some content -> parse content = Throw e ->
  run fs c = (fs, processingText e).
Proof.
  intros Hc Hfile Hparse. destruct c; try done; simpl in *.
  - unfold remove_pdf_pages, remove_pdf_pages_try, readFileSync, load.
    rewrite Hfile. simpl. by rewrite Base64Facts.decode_encode, Hparse.
  - unfold add_text_watermark_ts, add_text_watermark_ts_try, readFileSync, load.
    rewrite Hfile. simpl. by rewrite Base64Facts.decode_encode, Hparse.
  - unfold add_text_watermark, add_text_watermark_try, readFileSync, load.
    rewrite Hfile. simpl. by rewrite Base64Facts.decode_encode, Hparse.
Qed.

(** X6.  Loading comes first.  A call of [remove-pdf-pages] or
    [add-text-watermark] on a path that holds no file answers with the
    processing error of the failed read, and on a file that does not
    parse with the processing error of the parser; the page numbers and
    the position given are not looked at, and nothing is written. *)
Theorem load_failure_reported (fs : FS) (c : Call) :
  inPlace c = true ->
  (fs !! resolve (destination c) = None ->
   run fs c = (fs, processingText (ENOENT (destination c))))
  /\ (forall (content : list byte) (e : exn),
        fs !! resolve (destination c) = Some content ->
        parse content = Throw e ->
        run fs c = (fs, processingText e)).
Proof.
  intros Hc. split.
  - by apply run_missing_file.
  - intros content e. by apply run_unreadable_file.
Qed.

(** X7.  No tool touches a file other than the one its destination path
    denotes, whatever the spelling of that path, and no tool deletes a
    file; [remove-pdf-pages] and [add-text-watermark] do not create one
    either. *)
Theorem calls_touch_destination_only (fs fs' : FS) (c : Call) (text : string) :
  run fs c = (fs', text) ->
  (forall file, file <> resolve (destination c) -> fs' !! file = fs !! file)
  /\ dom fs ⊆ dom fs'
  /\ (inPlace c = true -> dom fs' = dom fs).
Proof.
  intros Hrun.
  pose proof (run_outcome fs c) as Hout. rewrite Hrun in Hout.
  inversion Hout as [t Herr Hsucc|inv n|doc bytes t Hs Hw Herr Hsucc
                    |doc bytes e written t Hs Hw Herr Hsucc]; subst;
    try (split_and!; done).
  all: split_and!;
    [intros file Hne; by rewrite lookup_insert_ne
    |rewrite dom_insert_L; set_solver
    |intros Hc; destruct (fs !! resolve (destination c)) as [content|] eqn:Hfile;
       [by apply dom_insert_lookup_L
       |rewrite (run_missing_file _ _ Hc Hfile) in Hrun;
        injection Hrun as Hfs _; by rewrite <- Hfs]].
Qed.

(** X8.  What a successful call writes is what the next call reads: the
    destination, read back as base64 text and given to [load], is
    parsed from the very bytes that [save] returned. *)
Theorem written_file_reads_back (fs fs' : FS) (c : Call) (text : string) :
  run fs c = (fs', text) ->
  isSuccessText text = true ->
  exists (doc : PDFDocument) (bytes : list byte),
    serialize doc = Ok bytes
    /\ (readFileSync fs' (destination c) ≫= load) = parse bytes.
Proof.
  intros Hrun Hok.
  pose proof (run_outcome fs c) as Hout. rewrite Hrun in Hout.
  inversion Hout as [t Herr Hsucc|inv n|doc bytes t Hs Hw Herr Hsucc
                    |doc bytes e written t Hs Hw Herr Hsucc]; subst.
  - congruence.
  - by destruct (invalidText_error inv n) as [_ ?]; congruence.
  - exists doc, bytes. split; [done|].
    apply load_readFileSync. by rewrite lookup_insert_eq.
  - congruence.
Qed.

End DispatchExtras.

(** ** Further properties of [merge-pdfs] *)
Section MergeExtras.
Context `{P : Platform}.

Lemma forOf_app {A S : Type} (step : S -> A -> result S) (s : S)
  (xs ys : list A) :
  forOf step s (xs ++ ys) = (s' ← forOf step s xs; forOf step s' ys).
Proof.
  revert s. induction xs as [|x xs IH]; intros s; simpl; [done|].
  destruct (step s x) as [s'|e]; simpl; [apply IH|done].
Qed.

(** X9.  The loop stops at the first path that does not load: when the
    paths before it load, the answer carries the error of that path,
    read or parse, whatever follows it in the list, and nothing is
    written. *)
Theorem merge_first_failure (fs : FS) (loaded : list string)
  (docs : list PDFDocument) (pdfPath : string) (rest : list string)
  (outputPath : string) :
  Forall2 (loadsAs fs) loaded docs ->
  (fs !! resolve pdfPath = None ->
   merge_pdfs fs (loaded ++ pdfPath :: rest) outputPath
   = (fs, mergingText (ENOENT pdfPath)))
  /\ (forall (content : list byte) (e : exn),
        fs !! resolve pdfPath = Some content -> parse content = Throw e ->
        merge_pdfs fs (loaded ++ pdfPath :: rest) outputPath
        = (fs, mergingText e)).
Proof.
  intros Hall. split.
  - intros Hnone. rewrite merge_pdfs_unfold, forOf_app.
    rewrite (merge_loop_loaded _ _ _ _ Hall). simpl.
    unfold merge_step, readFileSync. by rewrite Hnone.
  - intros content e Hfile Hparse. rewrite merge_pdfs_unfold, forOf_app.
    rewrite (merge_loop_loaded _ _ _ _ Hall). simpl.
    unfold merge_step, readFileSync, load. rewrite Hfile. simpl.
    by rewrite Base64Facts.decode_encode, Hparse.
Qed.



Lemma loadsAs_insert_ne (fs : FS) (path other : string) (bytes : list byte)
  (doc : PDFDocument) :
  resolve path <> other -> loadsAs fs path doc ->
  loadsAs (<[other := bytes]> fs) path doc.
Proof.
  intros Hne (content & Hfile & Hparse). exists content.
  by rewrite lookup_insert_ne.
Qed.

(** X11.  Merging in two steps gives the same document as merging at
    once: when the first merge is written and its file parses back to
    the document that was merged, a second merge of that file followed
    by further inputs, none of them that file, accumulates the pages of
    all the inputs in order. *)
Theorem merge_in_two_steps (fs : FS) (paths1 paths2 : list string)
  (docs1 docs2 : list PDFDocument) (tmpPath : string) (bytes : list byte) :
  Forall2 (loadsAs fs) paths1 docs1 ->
  Forall2 (loadsAs fs) paths2 docs2 ->
  Forall (fun path => resolve path <> resolve tmpPath) paths2 ->
  save (concat docs1) = Ok bytes -> parse bytes = Ok (concat docs1) ->
  diskWrite tmpPath bytes = Stored ->
  let fs1 := (merge_pdfs fs paths1 tmpPath).1 in
  forOf (merge_step fs1) [] (tmpPath :: paths2)
  = forOf (merge_step fs) [] (paths1 ++ paths2)
  /\ forOf (merge_step fs) [] (paths1 ++ paths2)
     = Ok (concat docs1 ++ concat docs2).
Proof.
  intros H1 H2 Hfresh Hs Hparse Hw fs1.
  assert (Hfs1 : fs1 = <[resolve tmpPath := bytes]> fs).
  { unfold fs1. rewrite merge_pdfs_unfold.
    rewrite (merge_loop_loaded _ _ _ [] H1). simpl.
    rewrite Hs. unfold writeThenAnswer. by rewrite Hw. }
  assert (Hboth : forOf (merge_step fs) [] (paths1 ++ paths2)
                  = Ok (concat docs1 ++ concat docs2)).
  { rewrite (merge_loop_loaded fs (paths1 ++ paths2) (docs1 ++ docs2) []).
    - simpl. by rewrite concat_app.
    - by apply Forall2_app. }
  split; [|done]. rewrite Hboth.
  rewrite (merge_loop_loaded fs1 (tmpPath :: paths2) (concat docs1 :: docs2) []);
    [done|].
  constructor.
  - exists bytes. by rewrite Hfs1, lookup_insert_eq.
  - rewrite Hfs1. clear -H2 Hfresh.
    induction H2 as [|p d ps ds Hload _ IH]; constructor.
    + apply loadsAs_insert_ne; [|done]. by apply Forall_cons in Hfresh as [? _].
    + apply IH. by apply Forall_cons in Hfresh as [_ ?].
Qed.

End MergeExtras.

(** ** Further properties of [add-text-watermark] *)

(** Linear goals over numbers, through their rational values. *)
Ltac number_lra :=
  unfold textSize, padding, num, Qc_of_Z, Qcle, Qclt, Qcminus, Qcplus, Qcdiv,
    Qcmult, Qcopp, Qcinv, Q2Qc in *;
  cbn [this] in *; rewrite ?Qred_correct in *; unfold inject_Z in *;
  change (/ (2 # 1))%Q with (1 # 2)%Q in *; lra.

Section WatermarkExtras.
Context `{P : Platform}.

Lemma mapM_Ok {A B : Type} (f : A -> result B) (xs : list A) (ys : list B) :
  mapM f xs = Ok ys -> Forall2 (fun x y => f x = Ok y) xs ys.
Proof.
  revert ys. induction xs as [|x xs IH]; intros ys; simpl.
  - intros [= <-]. constructor.
  - destruct (f x) as [y|e] eqn:Hx; simpl; [|done].
    destruct (mapM f xs) as [ys'|e]; simpl; [|done].
    intros [= <-]. constructor; [done|by apply IH].
Qed.

Lemma add_text_watermark_ts_loaded (fs : FS) (watermarkText pdfPath : string)
  (content : list byte) (doc : PDFDocument) :
  fs !! resolve pdfPath = Some content -> parse content = Ok doc ->
  add_text_watermark_ts fs watermarkText pdfPath =
  match mapM (fun page =>
                let '(width, height) := getSize page in
                drawText page watermarkText
                         (watermarkOptionsTs width height)) doc with
  | Ok pages' =>
      match save pages' with
      | Ok bytes =>
          writeThenAnswer fs pdfPath bytes watermarkedText processingText
      | Throw e => (fs, processingText e)
      end
  | Throw e => (fs, processingText e)
  end.
Proof.
  intros Hfile Hparse.
  by rewrite add_text_watermark_ts_unfold, (load_readFileSync _ _ _ Hfile), Hparse.
Qed.

(** X12.  A successful watermark keeps the pages: the document given
    to [save] has as many pages as the one loaded, and its page at each
    place is the page loaded at that place with the text drawn once, at
    the options computed from the size of that page.  It is the document
    written when the file has a page; for a file without pages [save]
    writes one blank page, without the text. *)
Theorem watermark_preserves_pages (fs fs' : FS) (watermarkText pdfPath text : string)
  (position : Position) (content : list byte) (doc : PDFDocument) :
  fs !! resolve pdfPath = Some content -> parse content = Ok doc ->
  add_text_watermark fs watermarkText pdfPath position = (fs', text) ->
  isSuccessText text = true ->
  exists (pages' : PDFDocument) (bytes : list byte),
    serialize (withDefaultPage pages') = Ok bytes
    /\ fs' = <[resolve pdfPath := bytes]> fs
    /\ length pages' = length doc
    /\ Forall2 (fun page page' =>
                  (let '(width, height) := getSize page in
                   drawText page watermarkText
                            (watermarkOptions position width height))
                  = Ok page') doc pages'
    /\ (doc <> [] -> withDefaultPage pages' = pages')
    /\ (doc = [] -> withDefaultPage pages' = [blankPage]).
Proof.
  intros Hfile Hparse.
  rewrite (add_text_watermark_loaded _ _ _ _ _ _ Hfile Hparse).
  destruct (mapM _ doc) as [pages'|e] eqn:Hdraw; [|by intros [= <- <-]].
  rewrite save_serialize.
  destruct (serialize _) as [bytes|e] eqn:Hs; [|by intros [= <- <-]].
  unfold writeThenAnswer.
  destruct (diskWrite pdfPath bytes); [|by intros [= <- <-]..].
  intros [= <- <-] _. exists pages', bytes.
  apply mapM_Ok in Hdraw.
  assert (Hlen : length pages' = length doc)
    by (symmetry; by eapply Forall2_length).
  split_and!; [done..| |].
  - intros Hne. apply withDefaultPage_pages. intros ->.
    by destruct doc.
  - intros ->. destruct pages'; [apply withDefaultPage_nil|done].
Qed.

(** X14.  The handler of the TypeScript source draws where the built
    handler draws for [center], at the same size, font and rotation,
    but in grey at opacity 0.3 where the build draws in red at 0.8. *)
Theorem watermark_source_and_build (fs : FS) (watermarkText pdfPath : string)
  (content : list byte) (doc : PDFDocument) :
  fs !! resolve pdfPath = Some content -> parse content = Ok doc ->
  add_text_watermark_ts fs watermarkText pdfPath =
    match mapM (fun page =>
                  let '(width, height) := getSize page in
                  drawText page watermarkText
                           (watermarkOptionsTs width height)) doc with
    | Ok pages' =>
        match save pages' with
        | Ok bytes =>
            writeThenAnswer fs pdfPath bytes watermarkedText processingText
        | Throw e => (fs, processingText e)
        end
    | Throw e => (fs, processingText e)
    end
  /\ forall width height : number,
       let ts := watermarkOptionsTs width height in
       let built := watermarkOptions center width height in
       Options.x ts = Options.x built /\ Options.y ts = Options.y built
       /\ Options.size ts = Options.size built
       /\ Options.font ts = Options.font built
       /\ Options.rotate ts = Options.rotate built
       /\ Options.color ts <> Options.color built
       /\ Options.opacity ts <> Options.opacity built.
Proof.
  intros Hfile Hparse.
  split; [by apply (add_text_watermark_ts_loaded _ _ _ content)|].
  intros width height. simpl. split_and!; try reflexivity.
  - intros H. apply (f_equal (fun c => this c.1.1)) in H. discriminate H.
  - intros H. apply (f_equal this) in H. discriminate H.
Qed.

(** X15.  On a page at least 300 wide and 100 high every position
    anchors the text within the page.  On a narrower page the centred
    and the right positions anchor it left of the left edge, and on a
    lower page the bottom row anchors it above the top edge. *)
Theorem anchor_within_page (position : Position) (width height : number) :
  let '(x, y) := anchor position width height in
  ((num 300 ≤ width)%Qc -> (num 100 ≤ height)%Qc ->
   (0 ≤ x)%Qc /\ (x ≤ width)%Qc /\ (0 ≤ y)%Qc /\ (y ≤ height)%Qc)
  /\ ((width < num 300)%Qc ->
      match position with
      | topLeft | bottomLeft => x = padding
      | _ => (x < 0)%Qc
      end)
  /\ ((height < num 100)%Qc ->
      match position with
      | bottom | bottomLeft | bottomRight => (height < y)%Qc
      | _ => True
      end).
Proof.
  destruct position; simpl; split_and!; intros; try split_and!;
    try reflexivity; try exact I; number_lra.
Qed.

End WatermarkExtras.

(** ** Calls in sequence *)
Section Sequences.
Context `{P : Platform}.

Local Instance descending_transitive' : Transitive (flip Qcle).
Proof. intros a b c Hab Hbc. unfold flip in *. by etrans. Qed.

Local Instance descending_antisymmetric' : AntiSymm (=) (flip Qcle).
Proof. intros a b Hab Hba. unfold flip in *. by apply (anti_symm Qcle). Qed.

Lemma inRange_ofNat (n k : nat) : 1 <= k <= n -> inRange n (ofNat k).
Proof.
  intros Hk. unfold inRange. rewrite <- Z2Qc_inj_1.
  change (Qc_of_Z 1) with (ofNat 1). rewrite !ofNat_le. lia.
Qed.

Lemma delete_delete_le {A : Type} (l : list A) (i j : nat) :
  i <= j -> delete i (delete (S j) l) = delete j (delete i l).
Proof.
  revert i j. induction l as [|x l IH]; intros i j Hij; [by destruct i, j|].
  destruct i as [|i]; [done|]. destruct j as [|j]; [lia|].
  simpl. f_equal. apply IH. lia.
Qed.

(** One valid page number. *)
Lemma remove_one_page (fs : FS) (pdfPath : string) (a : nat)
  (content : list byte) (doc : PDFDocument) :
  fs !! resolve pdfPath = Some content -> parse content = Ok doc ->
  a < length doc ->
  remove_pdf_pages fs pdfPath [ofNat (S a)] =
  match save (delete a doc) with
  | Ok bytes =>
      writeThenAnswer fs pdfPath bytes (removedText [ofNat (S a)]) processingText
  | Throw e => (fs, processingText e)
  end.
Proof.
  intros Hfile Hparse Ha.
  rewrite (remove_pdf_pages_loaded _ _ _ _ _ Hfile Hparse).
  rewrite (proj2 (invalidPagesOf_nil _ _))
    by (constructor; [apply inRange_ofNat; lia|constructor]).
  unfold removeAll. simpl. rewrite ofNat_pred, removePage_ofNat by done.
  done.
Qed.

(** Two valid page numbers, in either order. *)
Lemma remove_two_pages (fs : FS) (pdfPath : string) (a b : nat)
  (pageNumbers : list number) (content : list byte) (doc : PDFDocument) :
  fs !! resolve pdfPath = Some content -> parse content = Ok doc ->
  b < a < length doc ->
  pageNumbers ≡ₚ [ofNat (S a); ofNat (S b)] ->
  remove_pdf_pages fs pdfPath pageNumbers =
  match save (delete b (delete a doc)) with
  | Ok bytes =>
      writeThenAnswer fs pdfPath bytes (removedText pageNumbers) processingText
  | Throw e => (fs, processingText e)
  end.
Proof.
  intros Hfile Hparse Hab Hperm.
  rewrite (remove_pdf_pages_loaded _ _ _ _ _ Hfile Hparse).
  rewrite (proj2 (invalidPagesOf_nil _ _)).
  2:{ rewrite Hperm.
      constructor; [|constructor; [|constructor]]; apply inRange_ofNat; lia. }
  rewrite (sortDescending_descending pageNumbers [ofNat (S a); ofNat (S b)]);
    [|repeat first [apply Sorted_cons|apply Sorted_nil|apply HdRel_nil
                   |apply HdRel_cons];
      unfold flip; apply ofNat_le; lia|done].
  unfold removeAll. cbn [forOf mbind result_bind].
  rewrite (ofNat_pred a), removePage_ofNat by lia. cbn [mbind result_bind].
  rewrite (ofNat_pred b), removePage_ofNat; [done|].
  rewrite length_delete by (apply lookup_lt_is_Some; lia). lia.
Qed.

(** X16.  Removing two pages in two calls, the higher number first,
    ends with the file that one call with both numbers writes, when
    the writes succeed and the file of the first call parses back to
    the document saved. *)
Theorem remove_in_two_calls_descending (fs : FS) (pdfPath : string)
  (a b : nat) (content bytes1 bytes2 : list byte) (doc : PDFDocument) :
  fs !! resolve pdfPath = Some content -> parse content = Ok doc ->
  b < a < length doc ->
  save (delete a doc) = Ok bytes1 -> parse bytes1 = Ok (delete a doc) ->
  save (delete b (delete a doc)) = Ok bytes2 ->
  diskWrite pdfPath bytes1 = Stored -> diskWrite pdfPath bytes2 = Stored ->
  let fs1 := (remove_pdf_pages fs pdfPath [ofNat (S a)]).1 in
  (remove_pdf_pages fs1 pdfPath [ofNat (S b)]).1
  = (remove_pdf_pages fs pdfPath [ofNat (S b); ofNat (S a)]).1
  /\ (remove_pdf_pages fs pdfPath [ofNat (S b); ofNat (S a)]).1
     = <[resolve pdfPath := bytes2]> fs.
Proof.
  intros Hfile Hparse Hab Hs1 Hparse1 Hs2 Hw1 Hw2 fs1.
  assert (Hfs1 : fs1 = <[resolve pdfPath := bytes1]> fs).
  { unfold fs1. rewrite (remove_one_page _ _ _ _ _ Hfile Hparse) by lia.
    rewrite Hs1. unfold writeThenAnswer. by rewrite Hw1. }
  rewrite (remove_two_pages _ _ a b _ _ _ Hfile Hparse Hab) by apply perm_swap.
  rewrite Hs2. unfold writeThenAnswer. rewrite Hw2. simpl.
  split; [|done].
  rewrite (remove_one_page fs1 _ b bytes1 (delete a doc)).
  - rewrite Hs2, Hfs1. unfold writeThenAnswer. rewrite Hw2. simpl.
    apply insert_insert_eq.
  - by rewrite Hfs1, lookup_insert_eq.
  - done.
  - rewrite length_delete by (apply lookup_lt_is_Some; lia). lia.
Qed.

(** X17.  Page numbers are read against the file as it is at each
    call.  Removing page [b] in one call and then page [a], with
    [b < a], in a second call takes away the pages [b] and [a + 1] of
    the original document: when the writes succeed, the file ends as
    one call with the numbers [b] and [a + 1] leaves it. *)
Theorem remove_in_two_calls_ascending (fs : FS) (pdfPath : string)
  (a b : nat) (content bytes1 bytes2 : list byte) (doc : PDFDocument) :
  fs !! resolve pdfPath = Some content -> parse content = Ok doc ->
  1 <= b < a -> a < length doc ->
  save (delete (b - 1) doc) = Ok bytes1 ->
  parse bytes1 = Ok (delete (b - 1) doc) ->
  save (delete (a - 1) (delete (b - 1) doc)) = Ok bytes2 ->
  diskWrite pdfPath bytes1 = Stored -> diskWrite pdfPath bytes2 = Stored ->
  let fs1 := (remove_pdf_pages fs pdfPath [ofNat b]).1 in
  (remove_pdf_pages fs1 pdfPath [ofNat a]).1
  = (remove_pdf_pages fs pdfPath [ofNat b; ofNat (S a)]).1
  /\ (remove_pdf_pages fs1 pdfPath [ofNat a]).1
     = <[resolve pdfPath := bytes2]> fs
  /\ delete (a - 1) (delete (b - 1) doc)
     = otherPages doc [ofNat b; ofNat (S a)].
Proof.
  intros Hfile Hparse Hba Ha Hs1 Hparse1 Hs2 Hw1 Hw2 fs1.
  destruct b as [|b']; [lia|]. destruct a as [|a']; [lia|].
  replace (S b' - 1) with b' in * by lia.
  replace (S a' - 1) with a' in * by lia.
  assert (Hfs1 : fs1 = <[resolve pdfPath := bytes1]> fs).
  { unfold fs1. rewrite (remove_one_page _ _ _ _ _ Hfile Hparse) by lia.
    rewrite Hs1. unfold writeThenAnswer. by rewrite Hw1. }
  assert (Hcomm : delete b' (delete (S a') doc) = delete a' (delete b' doc))
    by (apply delete_delete_le; lia).
  assert (Hone : (remove_pdf_pages fs1 pdfPath [ofNat (S a')]).1
                 = <[resolve pdfPath := bytes2]> fs).
  { rewrite (remove_one_page fs1 _ a' bytes1 (delete b' doc)).
    - rewrite Hs2, Hfs1. unfold writeThenAnswer. rewrite Hw2. simpl.
      apply insert_insert_eq.
    - by rewrite Hfs1, lookup_insert_eq.
    - done.
    - rewrite length_delete by (apply lookup_lt_is_Some; lia). lia. }
  split_and!; [|done|].
  - rewrite Hone.
    rewrite (remove_two_pages _ _ (S a') b' _ _ _ Hfile Hparse)
      by (lia || apply perm_swap).
    rewrite Hcomm, Hs2. unfold writeThenAnswer. by rewrite Hw2.
  - rewrite <- Hcomm. symmetry.
    assert (Hkeep : removeAll doc [ofNat (S (S a')); ofNat (S b')]
                    = Ok (keepFrom 0 doc [ofNat (S (S a')); ofNat (S b')])).
    { apply removeAll_keeps.
      - apply Sorted_StronglySorted; [apply _|].
        repeat first [apply Sorted_cons|apply Sorted_nil|apply HdRel_nil
                     |apply HdRel_cons].
        unfold flip. apply ofNat_le. lia.
      - apply NoDup_cons. split; [|apply NoDup_singleton].
        intros Hin%list_elem_of_singleton%ofNat_inj. lia.
      - constructor; [|constructor; [|constructor]];
          eexists; (split; [reflexivity|lia]). }
    unfold removeAll in Hkeep. cbn [forOf mbind result_bind] in Hkeep.
    rewrite (ofNat_pred (S a')), removePage_ofNat in Hkeep by lia.
    cbn [mbind result_bind] in Hkeep.
    rewrite (ofNat_pred b'), removePage_ofNat in Hkeep
      by (rewrite length_delete by (apply lookup_lt_is_Some; lia); lia).
    injection Hkeep as Hkeep. unfold otherPages. rewrite Hkeep.
    apply keepFrom_ext. intros j _. rewrite !elem_of_cons. tauto.
Qed.

End Sequences.

(** ** The further properties at work on the small platform *)

Lemma valid_3_1 : Forall (inRange (length Mini.pagesA)) [num 3; num 1].
Proof. repeat constructor; by_computation. Qed.

Lemma remove_keeps_other_pages_witness :
  let pageNumbers := [num 3; num 1] in
  Forall (inRange (length Mini.pagesA)) pageNumbers
  /\ Forall (fun q => isInteger q = true) pageNumbers
  /\ NoDup pageNumbers
  /\ @removeAll Mini.platform Mini.pagesA (sortDescending pageNumbers)
     = Ok (@otherPages Mini.platform Mini.pagesA pageNumbers)
  /\ @otherPages Mini.platform Mini.pagesA pageNumbers = [("2", "2", x00)%byte].
Proof.
  intros pageNumbers.
  assert (H2 : Forall (fun q => isInteger q = true) pageNumbers)
    by (repeat constructor).
  assert (H3 : NoDup pageNumbers) by by_computation.
  split_and!; [exact valid_3_1|exact H2|exact H3| |vm_compute; reflexivity].
  exact (proj1 (@remove_keeps_other_pages Mini.platform Mini.disk "a.pdf"
                  pageNumbers Mini.docA Mini.pagesA disk_a parse_a
                  valid_3_1 H2 H3)).
Defined.

Lemma remove_more_numbers_than_pages_witness :
  let pageNumbers := [num 1; num 1; num 1; num 1] in
  length Mini.pagesA < length pageNumbers
  /\ isErrorText
       (@remove_pdf_pages Mini.platform Mini.disk "a.pdf" pageNumbers).2 = true
  /\ (@remove_pdf_pages Mini.platform Mini.disk "a.pdf" pageNumbers).1
     = Mini.disk.
Proof.
  intros pageNumbers.
  assert (H1 : length Mini.pagesA < length pageNumbers) by (simpl; lia).
  split; [exact H1|].
  exact (@remove_more_numbers_than_pages Mini.platform Mini.disk "a.pdf"
           pageNumbers Mini.docA Mini.pagesA disk_a parse_a H1).
Defined.

Lemma remove_empty_list_witness :
  Mini.disk !! @resolve Mini.platform "a.pdf" = Some Mini.docA
  /\ @parse Mini.platform Mini.docA = Ok Mini.pagesA
  /\ @remove_pdf_pages Mini.platform Mini.disk "a.pdf" []
     = (<["a.pdf"%string := Mini.docA]> Mini.disk,
        "Successfully removed 0 pages from the PDF."%string).
Proof.
  split_and!; [exact disk_a|exact parse_a|].
  rewrite (@remove_empty_list Mini.platform Mini.disk "a.pdf" Mini.docA
             Mini.pagesA disk_a parse_a).
  vm_compute. reflexivity.
Defined.

Lemma remove_from_pageless_document_witness :
  Mini.emptyDisk !! @resolve Mini.platform "e.pdf" = Some ["%"%byte]
  /\ @parse Mini.platform ["%"%byte] = Ok []
  /\ [num 1] <> []
  /\ @remove_pdf_pages Mini.platform Mini.emptyDisk "e.pdf" [num 1]
     = (Mini.emptyDisk,
        "Error: Invalid page numbers: 1. The document has 0 pages."%string).
Proof.
  assert (H1 : Mini.emptyDisk !! @resolve Mini.platform "e.pdf"
               = Some ["%"%byte]) by (vm_compute; reflexivity).
  assert (H2 : @parse Mini.platform ["%"%byte] = Ok []) by reflexivity.
  assert (H3 : [num 1] <> []) by discriminate.
  split_and!; [exact H1|exact H2|exact H3|].
  rewrite (@remove_from_pageless_document Mini.platform Mini.emptyDisk "e.pdf"
             [num 1] ["%"%byte] H1 H2 H3).
  vm_compute. reflexivity.
Defined.

Lemma load_failure_reported_witness :
  let c := RemovePdfPages "c.pdf" [num 0; num 9] in
  inPlace c = true
  /\ Mini.disk !! @resolve Mini.platform (destination c) = None
  /\ @run Mini.platform Mini.disk c
     = (Mini.disk, @processingText Mini.platform (ENOENT "c.pdf")).
Proof.
  intros c.
  assert (H1 : inPlace c = true) by reflexivity.
  assert (H2 : Mini.disk !! @resolve Mini.platform (destination c) = None)
    by (vm_compute; reflexivity).
  split_and!; [exact H1|exact H2|].
  exact (proj1 (@load_failure_reported Mini.platform Mini.disk c H1) H2).
Defined.

Lemma calls_touch_destination_only_witness :
  let c := RemovePdfPages "./a.pdf" [num 3; num 1] in
  let fs' := <["a.pdf"%string := ["%"; "2"; "2"; x00]%byte]> Mini.disk in
  let text := "Successfully removed 2 pages from the PDF."%string in
  @run Mini.platform Mini.disk c = (fs', text)
  /\ fs' !! "b.pdf"%string = Mini.disk !! "b.pdf"%string
  /\ dom fs' = dom Mini.disk.
Proof.
  intros c fs' text.
  assert (H1 : @run Mini.platform Mini.disk c = (fs', text))
    by (vm_compute; reflexivity).
  destruct (@calls_touch_destination_only Mini.platform Mini.disk fs' c text H1)
    as (Hframe & _ & Hdom).
  split_and!; [exact H1| |].
  - apply Hframe. discriminate.
  - apply Hdom. reflexivity.
Defined.

Lemma written_file_reads_back_witness :
  let c := MergePdfs ["a.pdf"; "b.pdf"]%string "out.pdf" in
  let fs' := (@run Mini.platform Mini.disk c).1 in
  let text := "Successfully merged 2 PDFs into out.pdf"%string in
  @run Mini.platform Mini.disk c = (fs', text)
  /\ isSuccessText text = true
  /\ exists doc bytes,
       @serialize Mini.platform doc = Ok bytes
       /\ (@readFileSync Mini.platform fs' "out.pdf" ≫= @load Mini.platform)
          = @parse Mini.platform bytes.
Proof.
  intros c fs' text.
  assert (H1 : @run Mini.platform Mini.disk c = (fs', text))
    by (vm_compute; reflexivity).
  assert (H2 : isSuccessText text = true) by reflexivity.
  split_and!; [exact H1|exact H2|].
  exact (@written_file_reads_back Mini.platform Mini.disk fs' c text H1 H2).
Defined.

Lemma loads_a : @loadsAs Mini.platform Mini.disk "a.pdf" Mini.pagesA.
Proof. exists Mini.docA. split; [exact disk_a|exact parse_a]. Qed.

Lemma loads_b : @loadsAs Mini.platform Mini.disk "b.pdf" Mini.pagesB.
Proof. exists Mini.docB. split; [exact disk_b|exact parse_b]. Qed.

Lemma merge_first_failure_witness :
  Forall2 (@loadsAs Mini.platform Mini.disk) ["a.pdf"%string] [Mini.pagesA]
  /\ Mini.disk !! @resolve Mini.platform "missing.pdf" = None
  /\ @merge_pdfs Mini.platform Mini.disk
       (["a.pdf"%string] ++ "missing.pdf"%string :: ["b.pdf"%string])
       "out.pdf"
     = (Mini.disk, @mergingText Mini.platform (ENOENT "missing.pdf")).
Proof.
  assert (H1 : Forall2 (@loadsAs Mini.platform Mini.disk)
                 ["a.pdf"%string] [Mini.pagesA])
    by (constructor; [exact loads_a|constructor]).
  assert (H2 : Mini.disk !! @resolve Mini.platform "missing.pdf" = None)
    by (vm_compute; reflexivity).
  split_and!; [exact H1|exact H2|].
  exact (proj1 (@merge_first_failure Mini.platform Mini.disk _ _ "missing.pdf"
                  ["b.pdf"%string] "out.pdf" H1) H2).
Defined.


Lemma merge_in_two_steps_witness :
  Forall2 (@loadsAs Mini.platform Mini.disk) ["a.pdf"%string] [Mini.pagesA]
  /\ Forall2 (@loadsAs Mini.platform Mini.disk) ["b.pdf"%string] [Mini.pagesB]
  /\ Forall (fun path => @resolve Mini.platform path
                         <> @resolve Mini.platform "t.pdf") ["b.pdf"%string]
  /\ @save Mini.platform (concat [Mini.pagesA]) = Ok Mini.docA
  /\ @parse Mini.platform Mini.docA = Ok (concat [Mini.pagesA])
  /\ @diskWrite Mini.platform "t.pdf" Mini.docA = Stored
  /\ forOf (@merge_step Mini.platform
              (@merge_pdfs Mini.platform Mini.disk ["a.pdf"%string] "t.pdf").1)
           [] ["t.pdf"; "b.pdf"]%string
     = forOf (@merge_step Mini.platform Mini.disk) []
             (["a.pdf"%string] ++ ["b.pdf"%string]).
Proof.
  assert (H1 : Forall2 (@loadsAs Mini.platform Mini.disk)
                 ["a.pdf"%string] [Mini.pagesA])
    by (constructor; [exact loads_a|constructor]).
  assert (H2 : Forall2 (@loadsAs Mini.platform Mini.disk)
                 ["b.pdf"%string] [Mini.pagesB])
    by (constructor; [exact loads_b|constructor]).
  assert (H3 : Forall (fun path => @resolve Mini.platform path
                                   <> @resolve Mini.platform "t.pdf")
                      ["b.pdf"%string])
    by (constructor; [discriminate|constructor]).
  assert (H4 : @save Mini.platform (concat [Mini.pagesA]) = Ok Mini.docA)
    by reflexivity.
  assert (H5 : @parse Mini.platform Mini.docA = Ok (concat [Mini.pagesA]))
    by reflexivity.
  assert (H6 : @diskWrite Mini.platform "t.pdf" Mini.docA = Stored)
    by reflexivity.
  split_and!; [exact H1|exact H2|exact H3|exact H4|exact H5|exact H6|].
  exact (proj1 (@merge_in_two_steps Mini.platform Mini.disk _ _ _ _ "t.pdf"
                  Mini.docA H1 H2 H3 H4 H5 H6)).
Defined.

Lemma watermark_preserves_pages_witness :
  let fs' := <["b.pdf"%string := ["%"; "4"; "4"; x01; "5"; "5"; x01]%byte]>
               Mini.disk in
  let text := "Successfully added text watermark to the PDF."%string in
  @add_text_watermark Mini.platform Mini.disk "draft" "b.pdf" topRight
  = (fs', text)
  /\ isSuccessText text = true
  /\ exists (pages' : list Mini.MiniPage) (bytes : list byte),
       @serialize Mini.platform pages' = Ok bytes
       /\ fs' = <["b.pdf"%string := bytes]> Mini.disk
       /\ length pages' = length Mini.pagesB.
Proof.
  intros fs' text.
  assert (H1 : @add_text_watermark Mini.platform Mini.disk "draft" "b.pdf"
                 topRight = (fs', text)) by (vm_compute; reflexivity).
  assert (H2 : isSuccessText text = true) by reflexivity.
  split_and!; [exact H1|exact H2|].
  destruct (@watermark_preserves_pages Mini.platform Mini.disk fs' "draft"
              "b.pdf" text topRight Mini.docB Mini.pagesB disk_b parse_b H1 H2)
    as (pages' & bytes & Hs & Hfs & Hlen & _ & Hsame & _).
  assert (H3 : Mini.pagesB <> []) by discriminate.
  rewrite (Hsame H3) in Hs.
  exists pages', bytes. split_and!; [exact Hs|exact Hfs|exact Hlen].
Defined.

Lemma watermark_source_and_build_witness :
  Mini.disk !! @resolve Mini.platform "b.pdf" = Some Mini.docB
  /\ @parse Mini.platform Mini.docB = Ok Mini.pagesB
  /\ Options.color (watermarkOptionsTs (num 52) (num 52))
     <> Options.color (watermarkOptions center (num 52) (num 52)).
Proof.
  split_and!; [exact disk_b|exact parse_b|].
  destruct (@watermark_source_and_build Mini.platform Mini.disk "draft" "b.pdf"
              Mini.docB Mini.pagesB disk_b parse_b) as [_ Hopts].
  exact (proj1 (proj2 (proj2 (proj2 (proj2 (proj2
           (Hopts (num 52) (num 52)))))))).
Defined.

Lemma anchor_within_page_witness :
  (num 300 ≤ num 600)%Qc /\ (num 100 ≤ num 800)%Qc
  /\ (0 ≤ (anchor topRight (num 600) (num 800)).1)%Qc
  /\ ((anchor topRight (num 600) (num 800)).2 ≤ num 800)%Qc.
Proof.
  assert (H1 : (num 300 ≤ num 600)%Qc) by by_computation.
  assert (H2 : (num 100 ≤ num 800)%Qc) by by_computation.
  split_and!; [exact H1|exact H2| |].
  - exact (proj1 (proj1 (anchor_within_page topRight (num 600) (num 800))
                    H1 H2)).
  - exact (proj2 (proj2 (proj2 (proj1
             (anchor_within_page topRight (num 600) (num 800)) H1 H2)))).
Defined.

Lemma remove_in_two_calls_descending_witness :
  let bytes1 := ["%"; "1"; "1"; x00; "2"; "2"; x00]%byte in
  let bytes2 := ["%"; "2"; "2"; x00]%byte in
  0 < 2 < length Mini.pagesA
  /\ @save Mini.platform (delete 2 Mini.pagesA) = Ok bytes1
  /\ @parse Mini.platform bytes1 = Ok (delete 2 Mini.pagesA)
  /\ @save Mini.platform (delete 0 (delete 2 Mini.pagesA)) = Ok bytes2
  /\ @diskWrite Mini.platform "a.pdf" bytes1 = Stored
  /\ @diskWrite Mini.platform "a.pdf" bytes2 = Stored
  /\ (@remove_pdf_pages Mini.platform
        (@remove_pdf_pages Mini.platform Mini.disk "a.pdf" [ofNat 3]).1
        "a.pdf" [ofNat 1]).1
     = (@remove_pdf_pages Mini.platform Mini.disk "a.pdf" [ofNat 1; ofNat 3]).1.
Proof.
  intros bytes1 bytes2.
  assert (H1 : 0 < 2 < length Mini.pagesA) by (simpl; lia).
  assert (H2 : @save Mini.platform (delete 2 Mini.pagesA) = Ok bytes1)
    by reflexivity.
  assert (H3 : @parse Mini.platform bytes1 = Ok (delete 2 Mini.pagesA))
    by reflexivity.
  assert (H4 : @save Mini.platform (delete 0 (delete 2 Mini.pagesA))
               = Ok bytes2) by reflexivity.
  assert (H5 : @diskWrite Mini.platform "a.pdf" bytes1 = Stored) by reflexivity.
  assert (H6 : @diskWrite Mini.platform "a.pdf" bytes2 = Stored) by reflexivity.
  refine (conj H1 (conj H2 (conj H3 (conj H4 (conj H5 (conj H6 _)))))).
  exact (proj1 (@remove_in_two_calls_descending Mini.platform Mini.disk "a.pdf"
                  2 0 Mini.docA bytes1 bytes2 Mini.pagesA disk_a parse_a
                  H1 H2 H3 H4 H5 H6)).
Defined.

Lemma remove_in_two_calls_ascending_witness :
  let bytes1 := ["%"; "2"; "2"; x00; "3"; "3"; x00]%byte in
  let bytes2 := ["%"; "2"; "2"; x00]%byte in
  1 <= 1 < 2 /\ 2 < length Mini.pagesA
  /\ @save Mini.platform (delete (1 - 1) Mini.pagesA) = Ok bytes1
  /\ @parse Mini.platform bytes1 = Ok (delete (1 - 1) Mini.pagesA)
  /\ @save Mini.platform (delete (2 - 1) (delete (1 - 1) Mini.pagesA))
     = Ok bytes2
  /\ @diskWrite Mini.platform "a.pdf" bytes1 = Stored
  /\ @diskWrite Mini.platform "a.pdf" bytes2 = Stored
  /\ (@remove_pdf_pages Mini.platform
        (@remove_pdf_pages Mini.platform Mini.disk "a.pdf" [ofNat 1]).1
        "a.pdf" [ofNat 2]).1
     = (@remove_pdf_pages Mini.platform Mini.disk "a.pdf" [ofNat 1; ofNat 3]).1.
Proof.
  intros bytes1 bytes2.
  assert (H1 : 1 <= 1 < 2) by lia.
  assert (H2 : 2 < length Mini.pagesA) by (simpl; lia).
  assert (H3 : @save Mini.platform (delete (1 - 1) Mini.pagesA)
               = Ok bytes1) by reflexivity.
  assert (H4 : @parse Mini.platform bytes1 = Ok (delete (1 - 1) Mini.pagesA))
    by reflexivity.
  assert (H5 : @save Mini.platform
                 (delete (2 - 1) (delete (1 - 1) Mini.pagesA)) = Ok bytes2)
    by reflexivity.
  assert (H6 : @diskWrite Mini.platform "a.pdf" bytes1 = Stored) by reflexivity.
  assert (H7 : @diskWrite Mini.platform "a.pdf" bytes2 = Stored) by reflexivity.
  refine (conj H1 (conj H2 (conj H3 (conj H4 (conj H5 (conj H6 (conj H7 _))))))).
  exact (proj1 (@remove_in_two_calls_ascending Mini.platform Mini.disk "a.pdf"
                  2 1 Mini.docA bytes1 bytes2 Mini.pagesA disk_a parse_a
                  H1 H2 H3 H4 H5 H6 H7)).
Defined.
